(** * Order-book reconciliation of the OKEx websocket wrapper

    A shallow embedding of [okex-go-sdk-api/ws_base.go]: the checksum
    engine ([calCrc32]), the depth merge ([mergeDepths],
    [WSDepthItem.update]), the per-table registry
    ([WSHotDepths.loadWSDepthTableResponse]) and the response classifier
    ([loadResponse]).

    Conventions of the embedding.
    - Go's [float64] is IEEE binary64: [SpecFloat.spec_float], compared with
      [SFltb] and [SFleb] (every comparison with a NaN is false).
    - [int32], [int64] and [uint32] are [Z]; the one conversion of the code,
      [int32(uint32)], is written out in [int32_of_uint32].
    - A Go function returning [(value, error)] returns a pair whose second
      component is an [option error] ([None] is Go's [nil]).
    - A run-time panic (failed type assertion, index out of range, nil
      dereference) is the [Panic] outcome of the [Outcome] monad.
    - A pointer to a struct that the code mutates in place is a value that
      the embedded function returns updated; the code never shares such a
      pointer between two owners.
    - Calls that leave the file ([strconv.ParseFloat], the [%v] verb on a
      [float64], the package helper [StringToInt64], the JSON decoder
      [JsonBytes2Struct]) are methods of the classes [Externals] and
      [Json]: every general theorem holds for all of their behaviours. *)

From Stdlib Require Import ZArith String Ascii List Lia Bool.
From Stdlib Require Import Floats.SpecFloat.
From stdpp Require Import base gmap strings list pretty.
Import ListNotations.

Set Warnings "-register-all".

(** ** Values *)

(** [float64]. *)
Definition float64 : Type := spec_float.

(** Go's [a < b], [a > b] and [a >= b] on [float64]. *)
Definition f64_lt (a b : float64) : bool := SFltb a b.
Definition f64_gt (a b : float64) : bool := SFltb b a.
Definition f64_ge (a b : float64) : bool := SFleb b a.

(** A [float64] that is a number. *)
Definition is_nan (a : float64) : bool :=
  match a with S754_nan => true | _ => false end.

(** The float64 of a small non-negative integer (exact below 2^53). *)
Definition float64_of_Z (z : Z) : float64 := binary_normalize 53 1024 z 0 false.

(** [interface{}] as the JSON decoder fills it: nil, bool, float64, string,
    []interface{} and map[string]interface{} (its entries in key order, the
    order in which [fmt] prints them). *)
Inductive iface : Type :=
| INil
| IBool (b : bool)
| IFloat64 (f : float64)
| IString (s : string)
| ISlice (l : list iface)
| IMap (kv : list (string * iface)).

(** A price level, [[4]interface{}]: price, size and two further slots. *)
Record level : Type := Level { e0 : iface; e1 : iface; e2 : iface; e3 : iface }.

(** Errors. The code builds them with [fmt.Errorf] and [errors.New]; each
    constructor stands for one format string and keeps its arguments. *)
Inductive error : Type :=
| LibError (msg : string)
    (* an error returned by strconv or by the JSON decoder *)
| BadPrice (cause : error)
    (* "Bad price, check why. err: %+v" *)
| ChecksumError (localString : string) (localCrc32 remoteCrc32 : Z)
    (* "Checksum's not correct. LocalString: %s, LocalCrc32: %d, RemoteCrc32: %d" *)
| TableMismatch (rTable dTable : string)
    (* "Loading WSDepthTableResponse failed becoz of WSTableResponse(%s) not matched with WSHotDepths(%s)" *)
| FormatError
    (* "WSDepthTableResponse's format error." *)
| CrossedBook (bids asks : list level).
    (* "bid1 larger than bid1, bids: %v, asks: %v" *)

(** ** Outcomes: a returned value or a panic *)

Inductive Outcome (A : Type) : Type :=
| Ret (a : A)
| Panic (why : string).
Arguments Ret {A} a.
Arguments Panic {A} why.

Definition bind {A B : Type} (c : Outcome A) (k : A -> Outcome B) : Outcome B :=
  match c with
  | Ret a => k a
  | Panic why => Panic why
  end.

#[global] Instance Outcome_bind : MBind Outcome := fun A B k c => bind c k.
#[global] Instance Outcome_ret : MRet Outcome := @Ret.

(** [v.(string)]: the type assertion panics on any other dynamic type. *)
Definition assertString (v : iface) : Outcome string :=
  match v with
  | IString s => Ret s
  | _ => Panic "interface conversion: interface {} is not string"
  end.

(** [s[i]] on a slice. *)
Definition index {A : Type} (s : list A) (i : nat) : Outcome A :=
  match s !! i with
  | Some a => Ret a
  | None => Panic "index out of range"
  end.

(** ** What the file calls and does not define *)

(** [ParseFloat s] is [strconv.ParseFloat(s, 10)], [FormatFloat f] is what
    the verb [%v] prints for a [float64], [StringToInt64] is the helper of
    the package's utilities (it returns an [int64] and no error). *)
Class Externals : Type := {
  ParseFloat : string -> float64 * option error;
  StringToInt64 : string -> Z;
  FormatFloat : float64 -> string
}.

(** ** fmt: the verb [%v] *)

Definition joinWith (sep : string) (l : list string) : string := String.concat sep l.

Fixpoint fmtV `{Externals} (v : iface) : string :=
  match v with
  | INil => "<nil>"
  | IBool b => if b then "true" else "false"
  | IFloat64 f => FormatFloat f
  | IString s => s
  | ISlice l => "[" +:+ joinWith " " (map fmtV l) +:+ "]"
  | IMap kv =>
      "map[" +:+ joinWith " " (map (fun e => fst e +:+ ":" +:+ fmtV (snd e)) kv) +:+ "]"
  end.

(** ** hash/crc32: the IEEE checksum *)

Definition byteZ (a : ascii) : Z := Z.of_N (N_of_ascii a).

(** One bit of the reflected CRC-32 with polynomial 0xedb88320. *)
Definition crcBit (c : Z) : Z :=
  if Z.testbit c 0 then Z.lxor (Z.shiftr c 1) 3988292384 else Z.shiftr c 1.

Definition crcByte (c : Z) (b : Z) : Z := Nat.iter 8 crcBit (Z.lxor c b).

Fixpoint crcUpdate (c : Z) (s : string) : Z :=
  match s with
  | EmptyString => c
  | String a r => crcUpdate (crcByte c (byteZ a)) r
  end.

(** [crc32.ChecksumIEEE], a [uint32]. *)
Definition ChecksumIEEE (s : string) : Z :=
  Z.lxor (crcUpdate 4294967295 s) 4294967295.

(** [int32(u)] for a [uint32] [u]: two's-complement wrap-around. *)
Definition int32_of_uint32 (u : Z) : Z :=
  ((u + 2147483648) mod 4294967296 - 2147483648)%Z.

(** ** The checksum engine *)

(** [bytes.Buffer]: its content; [WriteString] appends. *)
Definition writeSep (buf : string) : string :=
  if (0 <? String.length buf)%nat then buf +:+ ":" else buf.

(** The loop of the branch [crcAskDepth == crcBidDepth]: [n] iterations
    are left and [i] is the loop counter. *)
Fixpoint crcLoopBoth `{Externals} (n i : nat) (askDepths bidDepths : list level)
    (buf : string) : Outcome string :=
  match n with
  | O => Ret buf
  | S n' =>
      let buf := writeSep buf in
      b ← index bidDepths i;
      a ← index askDepths i;
      crcLoopBoth n' (S i) askDepths bidDepths
        (buf +:+ (fmtV (e0 b) +:+ ":" +:+ fmtV (e1 b) +:+ ":" +:+
                  fmtV (e0 a) +:+ ":" +:+ fmtV (e1 a)))
  end.

(** The two loops of the other branch, over one side each. *)
Fixpoint crcLoopSide `{Externals} (n i : nat) (depths : list level)
    (buf : string) : Outcome string :=
  match n with
  | O => Ret buf
  | S n' =>
      let buf := writeSep buf in
      d ← index depths i;
      crcLoopSide n' (S i) depths (buf +:+ (fmtV (e0 d) +:+ ":" +:+ fmtV (e1 d)))
  end.

Definition calCrc32 `{Externals} (askDepths bidDepths : list level)
    : Outcome (string * Z) :=
  let crc32BaseBuffer := EmptyString in
  let crcAskDepth := if (length askDepths <? 25)%nat then length askDepths else 25%nat in
  let crcBidDepth := if (length bidDepths <? 25)%nat then length bidDepths else 25%nat in
  crc32BaseBuffer ←
    (if (crcAskDepth =? crcBidDepth)%nat
     then crcLoopBoth crcAskDepth 0 askDepths bidDepths crc32BaseBuffer
     else
       buf ← crcLoopSide crcBidDepth 0 bidDepths crc32BaseBuffer;
       crcLoopSide crcAskDepth 0 askDepths buf);
  let expectCrc32 := int32_of_uint32 (ChecksumIEEE crc32BaseBuffer) in
  Ret (crc32BaseBuffer, expectCrc32).

(** What the loops leave in the buffer: the texts of [l] written one
    after the other onto [buf], each behind a separator unless the buffer
    is still empty. *)
Definition joinOnto (buf : string) (l : list string) : string :=
  fold_left (fun b s => writeSep b +:+ s) l buf.

(** The pre-hash string as the specification words it: each side cut to
    its first 25 levels; interleaved per index when the two cuts have the
    same length, all bids then all asks otherwise; joined by ":". *)
Definition pairText `{Externals} (d : level) : string :=
  fmtV (e0 d) +:+ ":" +:+ fmtV (e1 d).

Definition preHash `{Externals} (askDepths bidDepths : list level) : string :=
  let asks := take 25 askDepths in
  let bids := take 25 bidDepths in
  if (length asks =? length bids)%nat
  then joinWith ":" (map (fun ba => pairText (fst ba) +:+ ":" +:+ pairText (snd ba))
                         (combine bids asks))
  else joinWith ":" (map pairText bids ++ map pairText asks).

(** ** The red-black tree of gods, by its contract

    [rbt.Tree] is an ordered map from [float64] keys to levels. The library
    is not part of the repository; the tree is modelled by the sequence of
    its entries in the order of its comparator (its in-order traversal),
    and every operation walks that sequence with the comparator, as the
    tree walks its nodes: [Put] replaces key and value of the entry the
    comparator answers 0 on, or inserts before the first entry it answers
    a negative number on; [Remove] and [Get] find their entry the same
    way; [Left] is the first entry, or nil. *)
Module rbt.

Record Tree : Type := mkTree {
  Comparator : float64 -> float64 -> Z;
  entries : list (float64 * level)
}.

Definition NewWith (comparator : float64 -> float64 -> Z) : Tree :=
  mkTree comparator [].

Fixpoint put (cmp : float64 -> float64 -> Z) (key : float64) (value : level)
    (l : list (float64 * level)) : list (float64 * level) :=
  match l with
  | [] => [(key, value)]
  | (k, v) :: r =>
      let compare := cmp key k in
      if (compare =? 0)%Z then (key, value) :: r
      else if (compare <? 0)%Z then (key, value) :: (k, v) :: r
      else (k, v) :: put cmp key value r
  end.

Fixpoint remove (cmp : float64 -> float64 -> Z) (key : float64)
    (l : list (float64 * level)) : list (float64 * level) :=
  match l with
  | [] => []
  | (k, v) :: r =>
      let compare := cmp key k in
      if (compare =? 0)%Z then r
      else if (compare <? 0)%Z then (k, v) :: r
      else (k, v) :: remove cmp key r
  end.

Fixpoint get (cmp : float64 -> float64 -> Z) (key : float64)
    (l : list (float64 * level)) : option level :=
  match l with
  | [] => None
  | (k, v) :: r =>
      let compare := cmp key k in
      if (compare =? 0)%Z then Some v
      else if (compare <? 0)%Z then None
      else get cmp key r
  end.

Definition Put (t : Tree) (key : float64) (value : level) : Tree :=
  mkTree (Comparator t) (put (Comparator t) key value (entries t)).

Definition Remove (t : Tree) (key : float64) : Tree :=
  mkTree (Comparator t) (remove (Comparator t) key (entries t)).

Definition Get (t : Tree) (key : float64) : option level :=
  get (Comparator t) key (entries t).

Definition Size (t : Tree) : nat := length (entries t).

(** [Left()]: the leftmost node, [None] for the nil node of an empty tree. *)
Definition Left (t : Tree) : option (float64 * level) := hd_error (entries t).

Definition Values (t : Tree) : list level := map snd (entries t).

(** The entries are in the strict order of the comparator. *)
Fixpoint sorted (cmp : float64 -> float64 -> Z) (l : list (float64 * level)) : bool :=
  match l with
  | [] => true
  | (k, _) :: r =>
      match r with
      | [] => true
      | (k', _) :: _ => (cmp k k' <? 0)%Z && sorted cmp r
      end
  end.


(** The representation invariant: the entries are in order. *)
Definition wf (t : Tree) : Prop := sorted (Comparator t) (entries t) = true.

(** The comparator orders the key [k] against the entries of a tree: it
    answers 0 on [k] itself, a key it answers 0 on stands where [k]
    stands, and a key [k] is not before is before [k]. Both comparators of
    the file do so for every price that is a number ([comparator_orders]
    below); they do not for a NaN, on which they answer 0 against every
    key. *)
Definition orders (cmp : float64 -> float64 -> Z) (k : float64) : Prop :=
  cmp k k = 0%Z
  /\ (forall a b, cmp k a = 0 -> cmp a b < 0 -> cmp k b < 0)%Z
  /\ (forall a, cmp k a <> 0 -> ~ cmp k a < 0 -> cmp a k < 0)%Z.

End rbt.

Definition bidPriceLevelComparator (leftPriceLevel rightPriceLevel : float64) : Z :=
  if f64_lt leftPriceLevel rightPriceLevel then 1%Z
  else if f64_gt leftPriceLevel rightPriceLevel then (-1)%Z
  else 0%Z.

Definition askPriceLevelComparator (leftPriceLevel rightPriceLevel : float64) : Z :=
  if f64_lt leftPriceLevel rightPriceLevel then (-1)%Z
  else if f64_gt leftPriceLevel rightPriceLevel then 1%Z
  else 0%Z.

(** A side of a book: a tree built with one of the two comparators. *)
Definition bookSide (t : rbt.Tree) : Prop :=
  rbt.Comparator t = askPriceLevelComparator
  \/ rbt.Comparator t = bidPriceLevelComparator.

(** ** Depth updates and the book of one instrument *)

Module WsDepthUpdates.
Record t : Type := mk {
  InstrumentId : string;
  Asks : list level;
  Bids : list level;
  Timestamp : string;
  Checksum : Z
}.
End WsDepthUpdates.

Definition first25Updates (t : rbt.Tree) : list level :=
  let size := rbt.Size t in
  let size := if (25 <? size)%nat then 25%nat else size in
  take size (rbt.Values t).

Fixpoint mergeDepths `{Externals} (oldDepths : rbt.Tree) (newDepths : list level)
    : Outcome (rbt.Tree * option error) :=
  match newDepths with
  | [] => Ret (oldDepths, None)
  | newItem :: rest =>
      price ← assertString (e0 newItem);
      match ParseFloat price with
      | (_, Some err) => Ret (oldDepths, Some (BadPrice err))
      | (newPrice, None) =>
          size ← assertString (e1 newItem);
          let newNum := StringToInt64 size in
          if (newNum =? 0)%Z
          then mergeDepths (rbt.Remove oldDepths newPrice) rest
          else mergeDepths (rbt.Put oldDepths newPrice newItem) rest
      end
  end.

Module WSDepthItem.

Record t : Type := mk {
  InstrumentId : string;
  Bids : rbt.Tree;
  Asks : rbt.Tree;
  Timestamp : string;
  Checksum : Z
}.

Definition setAsks (di : t) (asks : rbt.Tree) : t :=
  mk (InstrumentId di) (Bids di) asks (Timestamp di) (Checksum di).

Definition setBids (di : t) (bids : rbt.Tree) : t :=
  mk (InstrumentId di) bids (Asks di) (Timestamp di) (Checksum di).

Definition commit (di : t) (checksum : Z) (timestamp : string) : t :=
  mk (InstrumentId di) (Bids di) (Asks di) timestamp checksum.

(** [di] is mutated in place: the returned item is [di] after the call,
    whatever the error. *)
Definition update `{Externals} (di : t) (newDI : WsDepthUpdates.t)
    : Outcome (t * option error) :=
  '(asks, err1) ← mergeDepths (Asks di) (WsDepthUpdates.Asks newDI);
  let di := setAsks di asks in
  match err1 with
  | Some err1 => Ret (di, Some err1)
  | None =>
      '(bids, err2) ← mergeDepths (Bids di) (WsDepthUpdates.Bids newDI);
      let di := setBids di bids in
      match err2 with
      | Some err2 => Ret (di, Some err2)
      | None =>
          let askDepths := first25Updates (Asks di) in
          let bidDepths := first25Updates (Bids di) in
          '(crc32BaseBuffer, expectCrc32) ← calCrc32 askDepths bidDepths;
          if negb (expectCrc32 =? WsDepthUpdates.Checksum newDI)%Z
          then Ret (di, Some (ChecksumError crc32BaseBuffer expectCrc32
                                (WsDepthUpdates.Checksum newDI)))
          else Ret (commit di (WsDepthUpdates.Checksum newDI)
                      (WsDepthUpdates.Timestamp newDI), None)
      end
  end.

End WSDepthItem.

(** The error of [item.update] is not looked at. *)
Definition newDepthItem `{Externals} (updates : WsDepthUpdates.t) : Outcome WSDepthItem.t :=
  let item := WSDepthItem.mk
    (WsDepthUpdates.InstrumentId updates)
    (rbt.NewWith bidPriceLevelComparator)
    (rbt.NewWith askPriceLevelComparator)
    (WsDepthUpdates.Timestamp updates)
    (WsDepthUpdates.Checksum updates) in
  '(item, _) ← WSDepthItem.update item updates;
  Ret item.

(** ** Depth pushes and the registry of one table *)

(** [strings.Contains]. *)
Fixpoint Contains (s substr : string) : bool :=
  if String.prefix substr s then true
  else match s with
       | EmptyString => false
       | String _ r => Contains r substr
       end.

Module WSDepthTableResponse.
Record t : Type := mk {
  Table : string;
  Action : string;
  Data : list WsDepthUpdates.t
}.

Definition Valid (r : t) : bool :=
  ((0 <? String.length (Table r))%nat || (0 <? String.length (Action r))%nat)
  && Contains (Table r) "depth"
  && (0 <? length (Data r))%nat.
End WSDepthTableResponse.

Module WSHotDepths.

Record t : Type := mk {
  Table : string;
  DepthMap : gmap string WSDepthItem.t
}.

(** The loop of [case "partial"]. *)
Fixpoint loadPartial `{Externals} (DepthMap : gmap string WSDepthItem.t)
    (data : list WsDepthUpdates.t) : Outcome (gmap string WSDepthItem.t * option error) :=
  match data with
  | [] => Ret (DepthMap, None)
  | u :: rest =>
      '(crc32BaseBuffer, expectCrc32) ←
        calCrc32 (WsDepthUpdates.Asks u) (WsDepthUpdates.Bids u);
      if (expectCrc32 =? WsDepthUpdates.Checksum u)%Z
      then
        item ← newDepthItem u;
        loadPartial (<[WsDepthUpdates.InstrumentId u := item]> DepthMap) rest
      else Ret (DepthMap, Some (ChecksumError crc32BaseBuffer expectCrc32
                                  (WsDepthUpdates.Checksum u)))
  end.

(** The loop of [case "update"]; [oldDI] is a pointer into the map, so
    the map holds the item as [update] left it, also when it failed. *)
Fixpoint loadUpdate `{Externals} (DepthMap : gmap string WSDepthItem.t)
    (data : list WsDepthUpdates.t) : Outcome (gmap string WSDepthItem.t * option error) :=
  match data with
  | [] => Ret (DepthMap, None)
  | newDI :: rest =>
      match DepthMap !! WsDepthUpdates.InstrumentId newDI with
      | Some oldDI =>
          '(oldDI, err) ← WSDepthItem.update oldDI newDI;
          let DepthMap := <[WsDepthUpdates.InstrumentId newDI := oldDI]> DepthMap in
          match err with
          | Some err => Ret (DepthMap, Some err)
          | None => loadUpdate DepthMap rest
          end
      | None =>
          item ← newDepthItem newDI;
          loadUpdate (<[WsDepthUpdates.InstrumentId newDI := item]> DepthMap) rest
      end
  end.

(** The closing loop: best ask and best bid of every entry's book. A
    missing book is a nil [*WSDepthItem], an empty side a nil [*Node]. *)
Fixpoint checkBest (DepthMap : gmap string WSDepthItem.t)
    (data : list WsDepthUpdates.t) : Outcome (option error) :=
  match data with
  | [] => Ret None
  | u :: rest =>
      match DepthMap !! WsDepthUpdates.InstrumentId u with
      | None => Panic "invalid memory address or nil pointer dereference"
      | Some depth =>
          match rbt.Left (WSDepthItem.Asks depth) with
          | None => Panic "invalid memory address or nil pointer dereference"
          | Some (ask1, _) =>
              match rbt.Left (WSDepthItem.Bids depth) with
              | None => Panic "invalid memory address or nil pointer dereference"
              | Some (bid1, _) =>
                  if f64_ge bid1 ask1
                  then Ret (Some (CrossedBook (rbt.Values (WSDepthItem.Bids depth))
                                              (rbt.Values (WSDepthItem.Asks depth))))
                  else checkBest DepthMap rest
              end
          end
      end
  end.

Definition NewWSHotDepths (tb : string) : t := mk tb ∅.

Definition loadWSDepthTableResponse `{Externals} (d : t) (r : WSDepthTableResponse.t)
    : Outcome (t * option error) :=
  if negb (String.eqb (Table d) (WSDepthTableResponse.Table r))
  then Ret (d, Some (TableMismatch (WSDepthTableResponse.Table r) (Table d)))
  else if negb (WSDepthTableResponse.Valid r)
  then Ret (d, Some FormatError)
  else
    '(d, err) ←
      (if String.eqb (WSDepthTableResponse.Action r) "partial" then
         let d := mk (WSDepthTableResponse.Table r) (DepthMap d) in
         '(m, err) ← loadPartial (DepthMap d) (WSDepthTableResponse.Data r);
         Ret (mk (Table d) m, err)
       else if String.eqb (WSDepthTableResponse.Action r) "update" then
         '(m, err) ← loadUpdate (DepthMap d) (WSDepthTableResponse.Data r);
         Ret (mk (Table d) m, err)
       else Ret (d, None));
    match err with
    | Some err => Ret (d, Some err)
    | None =>
        err ← checkBest (DepthMap d) (WSDepthTableResponse.Data r);
        Ret (d, err)
    end.

End WSHotDepths.

(** ** The response classifier *)

Module WSEventResponse.
Record t : Type := mk { Event : string; Success : string; Channel : string }.

Definition Valid (r : t) : bool :=
  ((0 <? String.length (Event r))%nat && (0 <? String.length (Channel r))%nat)
  || String.eqb (Event r) "login".
End WSEventResponse.

Module WSTableResponse.
Record t : Type := mk { Table : string; Action : string; Data : list iface }.

Definition Valid (r : t) : bool :=
  ((0 <? String.length (Table r))%nat || (0 <? String.length (Action r))%nat)
  && (0 <? length (Data r))%nat.
End WSTableResponse.

Module WSErrorResponse.
Record t : Type := mk { Event : string; Message : string; ErrorCode : Z }.

Definition Valid (r : t) : bool :=
  (0 <? String.length (Event r))%nat && (0 <? String.length (Message r))%nat
  && (30000 <=? ErrorCode r)%Z.
End WSErrorResponse.

(** [JsonBytes2Struct(rspMsg, &x)] for the four structs it is called on:
    the struct as the decoder left it, and the decoder's error. *)
Class Json : Type := {
  JsonBytes2Struct_Event : string -> WSEventResponse.t * option error;
  JsonBytes2Struct_Depth : string -> WSDepthTableResponse.t * option error;
  JsonBytes2Struct_Table : string -> WSTableResponse.t * option error;
  JsonBytes2Struct_Error : string -> WSErrorResponse.t * option error
}.

(** The dynamic type of what [loadResponse] returns. *)
Inductive Response : Type :=
| REvent (r : WSEventResponse.t)
| RDepth (r : WSDepthTableResponse.t)
| RTable (r : WSTableResponse.t)
| RError (r : WSErrorResponse.t)
| RString (s : string).

Definition isNil (err : option error) : bool :=
  match err with None => true | Some _ => false end.

Definition loadResponse `{Json} (rspMsg : string) : option Response * option error :=
  let '(evtR, err) := JsonBytes2Struct_Event rspMsg in
  if isNil err && WSEventResponse.Valid evtR then (Some (REvent evtR), None) else
  let '(dtr, err) := JsonBytes2Struct_Depth rspMsg in
  if isNil err && WSDepthTableResponse.Valid dtr then (Some (RDepth dtr), None) else
  let '(tr, err) := JsonBytes2Struct_Table rspMsg in
  if isNil err && WSTableResponse.Valid tr then (Some (RTable tr), None) else
  let '(er, err) := JsonBytes2Struct_Error rspMsg in
  if isNil err && WSErrorResponse.Valid er then (Some (RError er), None) else
  if String.eqb rspMsg "pong" then (Some (RString rspMsg), None) else
  (None, err).

(** ** A runtime for the worked examples

    The general theorems below hold for every [Externals] and [Json]. The
    examples run the embedding on concrete messages and need concrete
    ones. These stand-ins follow Go on the inputs the examples use and on
    nothing else:
    - [demoParseFloat] reads a string of decimal digits as that integer
      (exact below 2^53), reads "NaN" as the NaN that [strconv.ParseFloat]
      returns with a nil error, and answers a syntax error otherwise;
    - [demoStringToInt64] reads a string of decimal digits;
    - [demoFormatFloat] prints an integer-valued float between 0 and
      999999 as its decimal digits, which is what [%v] prints there;
    - [demoJson] decodes the message [{}] into the zero value of every
      struct, and fails on every other message as on invalid JSON. *)
Fixpoint digitsValue (acc : Z) (s : string) : option Z :=
  match s with
  | EmptyString => Some acc
  | String a r =>
      let n := byteZ a in
      if (48 <=? n)%Z && (n <=? 57)%Z then digitsValue (10 * acc + (n - 48))%Z r
      else None
  end.

Definition syntaxError : error := LibError "invalid syntax".

Definition demoParseFloat (s : string) : float64 * option error :=
  if String.eqb s "NaN" then (S754_nan, None)
  else if String.eqb s "" then (S754_zero false, Some syntaxError)
  else match digitsValue 0 s with
       | Some z => (float64_of_Z z, None)
       | None => (S754_zero false, Some syntaxError)
       end.

Definition demoStringToInt64 (s : string) : Z :=
  if String.eqb s "" then 0%Z
  else match digitsValue 0 s with
       | Some z => z
       | None => 0%Z
       end.

Definition demoFormatFloat (f : float64) : string :=
  match f with
  | S754_zero false => "0"
  | S754_finite false m e =>
      let d := Z.pow 2 (- e) in
      if (e <=? 0)%Z && (Z.pos m mod d =? 0)%Z && (Z.pos m / d <? 1000000)%Z
      then pretty (Z.pos m / d)%Z
      else "?"
  | _ => "?"
  end.

Definition demoExternals : Externals := {|
  ParseFloat := demoParseFloat;
  StringToInt64 := demoStringToInt64;
  FormatFloat := demoFormatFloat
|}.

Definition demoDecode {A : Type} (zero : A) (rspMsg : string) : A * option error :=
  if String.eqb rspMsg "{}" then (zero, None) else (zero, Some syntaxError).

Definition demoJson : Json := {|
  JsonBytes2Struct_Event := demoDecode (WSEventResponse.mk "" "" "");
  JsonBytes2Struct_Depth := demoDecode (WSDepthTableResponse.mk "" "" []);
  JsonBytes2Struct_Table := demoDecode (WSTableResponse.mk "" "" []);
  JsonBytes2Struct_Error := demoDecode (WSErrorResponse.mk "" "" 0)
|}.

(** A level whose price and size are the strings [price] and [size]; the
    two further slots are nil, as for a JSON array of two elements. *)
Definition lvl (price size : string) : level :=
  Level (IString price) (IString size) INil INil.

(** A level whose price is the number [price], as in [[100.0,"1"]]. *)
Definition lvlNum (price : Z) (size : string) : level :=
  Level (IFloat64 (float64_of_Z price)) (IString size) INil INil.

(** ** Data of the worked examples *)

(** The scenario of the specification: bids [[100.0,"1"],[99.0,"2"]] and
    asks [[101.0,"1"],[102.0,"2"]]. *)
Definition scenarioBids : list level := [lvlNum 100 "1"; lvlNum 99 "2"].
Definition scenarioAsks : list level := [lvlNum 101 "1"; lvlNum 102 "2"].

(** An ask side holding the one level 101. *)
Definition askSide101 : rbt.Tree :=
  rbt.Put (rbt.NewWith askPriceLevelComparator) (float64_of_Z 101) (lvl "101" "1").

(** A bid side holding the one level 100. *)
Definition bidSide100 : rbt.Tree :=
  rbt.Put (rbt.NewWith bidPriceLevelComparator) (float64_of_Z 100) (lvl "100" "1").

(** Whether the registry holds a book for the instrument. *)
Definition installed (d : WSHotDepths.t) (instrumentId : string) : bool :=
  match WSHotDepths.DepthMap d !! instrumentId with
  | Some _ => true
  | None => false
  end.

(** The checksum a sender computes for an entry: that of its levels as
    they stand in the message. *)
Definition checksumOf `{Externals} (asks bids : list level) : Z :=
  int32_of_uint32 (ChecksumIEEE (preHash asks bids)).

(** An entry for [instrumentId] carrying the right checksum, and one
    carrying a wrong one ([demoExternals] prints and parses). *)
Definition goodEntry (instrumentId : string) (asks bids : list level) : WsDepthUpdates.t :=
  WsDepthUpdates.mk instrumentId asks bids "2019-01-01T00:00:00.000Z"
    (@checksumOf demoExternals asks bids).

Definition badEntry (instrumentId : string) (asks bids : list level) : WsDepthUpdates.t :=
  WsDepthUpdates.mk instrumentId asks bids "2019-01-01T00:00:01.000Z"
    (@checksumOf demoExternals asks bids + 1)%Z.

Definition depthTable : string := "futures/depth".

Definition emptyRegistry : WSHotDepths.t := WSHotDepths.NewWSHotDepths depthTable.

Definition message (action : string) (data : list WsDepthUpdates.t) : WSDepthTableResponse.t :=
  WSDepthTableResponse.mk depthTable action data.

(** Entries of the worked examples: X with the ask 101 and the bid 100,
    the same with a wrong checksum, a second wrong entry for X, Y with
    the ask 11 and the bid 10, and X with the ask 1 and the bid "NaN". *)
Definition entryX : WsDepthUpdates.t := goodEntry "X" [lvl "101" "1"] [lvl "100" "1"].
Definition entryXwrong : WsDepthUpdates.t := badEntry "X" [lvl "101" "1"] [lvl "100" "1"].
Definition entryXagain : WsDepthUpdates.t := badEntry "X" [lvl "101" "2"] [lvl "100" "2"].
Definition entryY : WsDepthUpdates.t := goodEntry "Y" [lvl "11" "1"] [lvl "10" "1"].
Definition entryNaN : WsDepthUpdates.t := goodEntry "X" [lvl "1" "1"] [lvl "NaN" "1"].

(** The registry that the snapshot loop leaves, for the examples. *)
Definition registryAfter (data : list WsDepthUpdates.t) : gmap string WSDepthItem.t :=
  match @WSHotDepths.loadPartial demoExternals ∅ data with
  | Ret (m, _) => m
  | Panic _ => ∅
  end.

(** A book with the ask 101 and the bid 100. *)
Definition book101 : WSDepthItem.t :=
  WSDepthItem.mk "X" bidSide100 askSide101 "2019-01-01T00:00:00.000Z" 0.

(** ** Control messages *)

(** The constants of the package that the files use and do not define. *)
Class Consts : Type := {
  CHNL_EVENT_SUBSCRIBE : string;
  CHNL_EVENT_UNSUBSCRIBE : string;
  ERR_WS_SUBSCRIOTION_PARAMS : error
}.

Module BaseOp.
Record t : Type := mk { Op : string; Args : list string }.
End BaseOp.

Module SubscriptionTopic.
Record t : Type := mk { channel : string; filter : string }.

Definition ToString `{Consts} (st : t) : string * option error :=
  if (String.length (channel st) =? 0)%nat
  then ("", Some ERR_WS_SUBSCRIOTION_PARAMS)
  else if (0 <? String.length (filter st))%nat
  then ((channel st +:+ ":") +:+ filter st, None)
  else (channel st, None).
End SubscriptionTopic.

(** The loop of [subscribeOp] and of [unsubscribeOp]: the arguments
    gathered so far, and the error of the topic it stopped at. *)
Fixpoint topicArgs `{Consts} (sts : list SubscriptionTopic.t) (strArgs : list string)
    : list string * option error :=
  match sts with
  | [] => (strArgs, None)
  | st :: rest =>
      match SubscriptionTopic.ToString st with
      | (_, Some err) => (strArgs, Some err)
      | (channel, None) => topicArgs rest (strArgs ++ [channel])
      end
  end.

Definition subscribeOp `{Consts} (sts : list SubscriptionTopic.t)
    : option BaseOp.t * option error :=
  match topicArgs sts [] with
  | (_, Some err) => (None, Some err)
  | (strArgs, None) => (Some (BaseOp.mk "subscribe" strArgs), None)
  end.

Definition unsubscribeOp `{Consts} (sts : list SubscriptionTopic.t)
    : option BaseOp.t * option error :=
  match topicArgs sts [] with
  | (_, Some err) => (None, Some err)
  | (strArgs, None) => (Some (BaseOp.mk CHNL_EVENT_UNSUBSCRIBE strArgs), None)
  end.

Definition loginOp (apiKey passphrase timestamp sign : string)
    : option BaseOp.t * option error :=
  (Some (BaseOp.mk "login" [apiKey; passphrase; timestamp; sign]), None).

(** ** The agent: a depth push in [receive]

    The case [*WSDepthTableResponse] of the loop of [OKWSAgent.receive],
    on the agent's [hotDepthsMap]: the registry of the table is looked up
    or made, the push is loaded into it, a registry made here is stored
    only when the load returned no error, and the push goes on to the
    table channel exactly when the error is nil. A registry found in the
    map is a pointer: the map holds it as the load left it. The returned
    error is the one the loop logs. *)
Definition receiveDepth `{Externals} (hotDepthsMap : gmap string WSHotDepths.t)
    (dtr : WSDepthTableResponse.t)
    : Outcome (gmap string WSHotDepths.t * option error) :=
  match hotDepthsMap !! WSDepthTableResponse.Table dtr with
  | None =>
      let hotDepths := WSHotDepths.NewWSHotDepths (WSDepthTableResponse.Table dtr) in
      '(hotDepths, err) ← WSHotDepths.loadWSDepthTableResponse hotDepths dtr;
      match err with
      | None => Ret (<[WSDepthTableResponse.Table dtr := hotDepths]> hotDepthsMap, None)
      | Some err => Ret (hotDepthsMap, Some err)
      end
  | Some hotDepths =>
      '(hotDepths, err) ← WSHotDepths.loadWSDepthTableResponse hotDepths dtr;
      Ret (<[WSDepthTableResponse.Table dtr := hotDepths]> hotDepthsMap, err)
  end.

(** ** Invariants of the two maps

    The registry of a table files the book of an instrument under the
    instrument's id, and the agent files the registry of a table under
    the table. *)
Definition booksKeyed (DepthMap : gmap string WSDepthItem.t) : Prop :=
  map_Forall (fun instrumentId item => WSDepthItem.InstrumentId item = instrumentId) DepthMap.

Definition tablesKeyed (hotDepthsMap : gmap string WSHotDepths.t) : Prop :=
  map_Forall (fun table d => WSHotDepths.Table d = table) hotDepthsMap.

(** Constants for the worked examples. *)
Definition demoConsts : Consts := {|
  CHNL_EVENT_SUBSCRIBE := "subscribe";
  CHNL_EVENT_UNSUBSCRIBE := "unsubscribe";
  ERR_WS_SUBSCRIOTION_PARAMS := LibError "ws subscription params invalid"
|}.

(** ** Tactics of the proofs *)

(** Case analysis on the comparisons of exponents and mantissas that
    [SFcompare] makes. *)
Ltac float_order :=
  unfold SFltb, SFleb, SFcompare; intros;
  repeat match goal with
         | x : spec_float |- _ => destruct x
         | s : bool |- _ => destruct s
         end;
  cbn in *; try congruence;
  repeat match goal with
         | |- context [Z.compare ?a ?b] => destruct (Z.compare_spec a b)
         | H : context [Z.compare ?a ?b] |- _ => destruct (Z.compare_spec a b)
         | |- context [Pos.compare_cont Eq ?a ?b] =>
             change (Pos.compare_cont Eq a b) with (Pos.compare a b);
             destruct (Pos.compare_spec a b)
         | H : context [Pos.compare_cont Eq ?a ?b] |- _ =>
             change (Pos.compare_cont Eq a b) with (Pos.compare a b) in H;
             destruct (Pos.compare_spec a b)
         end;
  cbn in *; subst; try congruence; try lia.

(** Case analysis on the answer of the comparator at the head of the
    walk: 0, negative, or positive. *)
Ltac walk cmp key k :=
  let He := fresh "He" in
  let Hl := fresh "Hl" in
  destruct (cmp key k =? 0)%Z eqn:He;
  [ apply Z.eqb_eq in He
  | destruct (cmp key k <? 0)%Z eqn:Hl;
    [ apply Z.eqb_neq in He; apply Z.ltb_lt in Hl
    | apply Z.eqb_neq in He; apply Z.ltb_ge in Hl ] ].

(** The answer of the comparator, known, decides the tests of the walk. *)
Ltac answered :=
  repeat match goal with
         | H : ?c = 0%Z |- context [(?c =? 0)%Z] =>
             rewrite (proj2 (Z.eqb_eq c 0) H)
         | H : ?c <> 0%Z |- context [(?c =? 0)%Z] =>
             rewrite (proj2 (Z.eqb_neq c 0) H)
         | H : (?c < 0)%Z |- context [(?c <? 0)%Z] =>
             rewrite (proj2 (Z.ltb_lt c 0) H)
         | H : (0 <= ?c)%Z |- context [(?c <? 0)%Z] =>
             rewrite (proj2 (Z.ltb_ge c 0) H)
         end.

(** * Strings and the buffer *)

Lemma append_assoc (a b c : string) : (a +:+ b) +:+ c = a +:+ (b +:+ c).
Proof.
  induction a as [|x a IH]; [reflexivity|].
  change (String x ((a +:+ b) +:+ c) = String x (a +:+ (b +:+ c))).
  now rewrite IH.
Qed.

Lemma length_append (a b : string) :
  String.length (a +:+ b) = String.length a + String.length b.
Proof.
  induction a as [|x a IH]; [reflexivity|].
  change (S (String.length (a +:+ b)) = S (String.length a + String.length b)).
  now rewrite IH.
Qed.

Lemma writeSep_empty : writeSep "" = "".
Proof. reflexivity. Qed.

Lemma writeSep_nonempty (buf : string) :
  0 < String.length buf -> writeSep buf = buf +:+ ":".
Proof.
  intros Hlen. unfold writeSep.
  destruct (Nat.ltb_spec 0 (String.length buf)); [reflexivity | lia].
Qed.

(** Writing non-empty texts onto a buffer is joining them with ":". *)
Lemma joinOnto_nonempty (l : list string) (buf : string) :
  Forall (fun s => 0 < String.length s) l ->
  0 < String.length buf ->
  joinOnto buf l = match l with
                   | [] => buf
                   | _ => buf +:+ ":" +:+ joinWith ":" l
                   end.
Proof.
  revert buf. induction l as [|x l IH]; intros buf Hall Hbuf; [reflexivity|].
  inversion Hall as [|? ? Hx Hl]; subst.
  unfold joinOnto in *. cbn [fold_left].
  rewrite IH; [| assumption | rewrite length_append; lia].
  rewrite (writeSep_nonempty buf Hbuf).
  destruct l as [|y l]; cbn [joinWith String.concat].
  - now rewrite append_assoc.
  - now rewrite !append_assoc.
Qed.

Lemma joinOnto_empty (l : list string) :
  Forall (fun s => 0 < String.length s) l ->
  joinOnto "" l = joinWith ":" l.
Proof.
  intros Hall. destruct l as [|x l]; [reflexivity|].
  inversion Hall as [|? ? Hx Hl]; subst.
  change (joinOnto "" (x :: l)) with (joinOnto x l).
  rewrite joinOnto_nonempty by assumption.
  destruct l; reflexivity.
Qed.

Lemma joinOnto_app (buf : string) (l1 l2 : list string) :
  joinOnto (joinOnto buf l1) l2 = joinOnto buf (l1 ++ l2).
Proof. unfold joinOnto. now rewrite fold_left_app. Qed.

Section Checksum.
Context `{Externals}.

Lemma pairText_nonempty (d : level) : 0 < String.length (pairText d).
Proof. unfold pairText. rewrite !length_append. simpl. lia. Qed.

Lemma index_drop {A : Type} (l : list A) (i : nat) :
  i < length l -> exists a, index l i = Ret a /\ drop i l = a :: drop (S i) l.
Proof.
  intros Hi. destruct (lookup_lt_is_Some_2 l i Hi) as [a Ha].
  exists a. unfold index. rewrite Ha. split; [reflexivity|].
  now apply drop_S.
Qed.

(** The loop over one side writes the texts of the levels [i], ...,
    [i + n - 1]; every index is in range, so it does not panic. *)
Lemma crcLoopSide_spec (n i : nat) (depths : list level) (buf : string) :
  i + n <= length depths ->
  crcLoopSide n i depths buf
  = Ret (joinOnto buf (map pairText (take n (drop i depths)))).
Proof.
  revert i buf. induction n as [|n IH]; intros i buf Hlen.
  - reflexivity.
  - destruct (index_drop depths i) as (d & Hd & Hdrop); [lia|].
    cbn [crcLoopSide]. rewrite Hd. cbn.
    rewrite IH by lia. rewrite Hdrop. reflexivity.
Qed.

Lemma crcLoopBoth_spec (n i : nat) (askDepths bidDepths : list level) (buf : string) :
  i + n <= length askDepths ->
  i + n <= length bidDepths ->
  crcLoopBoth n i askDepths bidDepths buf
  = Ret (joinOnto buf
           (map (fun ba => pairText (fst ba) +:+ ":" +:+ pairText (snd ba))
                (combine (take n (drop i bidDepths)) (take n (drop i askDepths))))).
Proof.
  revert i buf. induction n as [|n IH]; intros i buf Hla Hlb.
  - reflexivity.
  - destruct (index_drop bidDepths i) as (b & Hb & Hdropb); [lia|].
    destruct (index_drop askDepths i) as (a & Ha & Hdropa); [lia|].
    cbn [crcLoopBoth]. rewrite Hb. cbn. rewrite Ha. cbn.
    rewrite IH by lia. rewrite Hdropb, Hdropa. cbn.
    unfold joinOnto, pairText. now rewrite !append_assoc.
Qed.

End Checksum.

Section ChecksumEngine.
Context `{Externals}.

Lemma crcDepth_take (l : list level) :
  (if (length l <? 25)%nat then length l else 25%nat) = length (take 25 l)
  /\ take (if (length l <? 25)%nat then length l else 25%nat) l = take 25 l.
Proof.
  rewrite length_take. destruct (Nat.ltb_spec (length l) 25).
  - split; [lia|]. rewrite !take_ge by lia. reflexivity.
  - split; [lia | reflexivity].
Qed.

(** [calCrc32] never panics and returns the pre-hash string of the
    specification with its checksum. *)
Lemma calCrc32_preHash (askDepths bidDepths : list level) :
  calCrc32 askDepths bidDepths
  = Ret (preHash askDepths bidDepths,
         int32_of_uint32 (ChecksumIEEE (preHash askDepths bidDepths))).
Proof.
  unfold calCrc32, preHash.
  destruct (crcDepth_take askDepths) as [Hna Hta].
  destruct (crcDepth_take bidDepths) as [Hnb Htb].
  set (na := if (length askDepths <? 25)%nat then length askDepths else 25%nat) in *.
  set (nb := if (length bidDepths <? 25)%nat then length bidDepths else 25%nat) in *.
  assert (Hla : 0 + na <= length askDepths) by (rewrite Hna, length_take; lia).
  assert (Hlb : 0 + nb <= length bidDepths) by (rewrite Hnb, length_take; lia).
  rewrite <- Hna, <- Hnb.
  destruct (Nat.eqb_spec na nb) as [Heq | Hne].
  - rewrite crcLoopBoth_spec by lia. rewrite !drop_0.
    rewrite Hta. rewrite Heq, Htb.
    rewrite joinOnto_empty; [reflexivity|].
    apply List.Forall_forall. intros s Hs. apply in_map_iff in Hs as (ba & <- & _).
    rewrite !length_append. pose proof (pairText_nonempty ba.1). lia.
  - rewrite crcLoopSide_spec by lia. cbn.
    rewrite crcLoopSide_spec by lia. rewrite !drop_0.
    rewrite joinOnto_app, Hta, Htb.
    rewrite joinOnto_empty; [reflexivity|].
    apply List.Forall_forall. intros s Hs. apply in_app_iff in Hs.
    destruct Hs as [Hs | Hs]; apply in_map_iff in Hs as (d & <- & _);
      apply pairText_nonempty.
Qed.

Lemma int32_of_uint32_range (u : Z) :
  (-2147483648 <= int32_of_uint32 u < 2147483648)%Z
  /\ (int32_of_uint32 u mod 4294967296 = u mod 4294967296)%Z.
Proof.
  unfold int32_of_uint32. split.
  - pose proof (Z.mod_pos_bound (u + 2147483648) 4294967296). lia.
  - rewrite Zminus_mod_idemp_l.
    replace (u + 2147483648 - 2147483648)%Z with u by lia. reflexivity.
Qed.

End ChecksumEngine.

(** * The order of float64 *)

Lemma SFltb_irrefl (x : spec_float) : SFltb x x = false.
Proof. revert x. float_order. Qed.

Lemma SFltb_asym (x y : spec_float) : SFltb x y = true -> SFltb y x = false.
Proof. revert x y. float_order. Qed.

Lemma SFltb_trans (x y z : spec_float) :
  SFltb x y = true -> SFltb y z = true -> SFltb x z = true.
Proof. revert x y z. float_order. Qed.

Lemma SFltb_equiv_l (x y z : spec_float) :
  is_nan x = false -> SFltb x y = false -> SFltb y x = false ->
  SFltb y z = true -> SFltb x z = true.
Proof. revert x y z. unfold is_nan. float_order. Qed.

Lemma SFltb_equiv_r (x y z : spec_float) :
  is_nan x = false -> SFltb x y = false -> SFltb y x = false ->
  SFltb z y = true -> SFltb z x = true.
Proof. revert x y z. unfold is_nan. float_order. Qed.

Lemma SFleb_false_lt (x y : spec_float) :
  is_nan x = false -> is_nan y = false -> SFleb x y = false -> SFltb y x = true.
Proof. revert x y. unfold is_nan. float_order. Qed.

Lemma SFltb_not_nan (x y : spec_float) :
  SFltb x y = true -> is_nan x = false /\ is_nan y = false.
Proof. revert x y. unfold is_nan. float_order; split; reflexivity. Qed.
(** * The ordered map *)

Lemma ask_orders (k : float64) :
  is_nan k = false -> rbt.orders askPriceLevelComparator k.
Proof.
  intros Hk. unfold rbt.orders, askPriceLevelComparator, f64_lt, f64_gt.
  rewrite (SFltb_irrefl k). split; [reflexivity|]. split.
  - intros a b.
    destruct (SFltb k a) eqn:Hka; [lia|]. destruct (SFltb a k) eqn:Hak; [lia|].
    destruct (SFltb a b) eqn:Hab; [| destruct (SFltb b a); lia].
    intros _ _. now rewrite (SFltb_equiv_l k a b Hk Hka Hak Hab).
  - intros a.
    destruct (SFltb k a) eqn:Hka; [lia|]. destruct (SFltb a k) eqn:Hak; lia.
Qed.

Lemma bid_orders (k : float64) :
  is_nan k = false -> rbt.orders bidPriceLevelComparator k.
Proof.
  intros Hk. unfold rbt.orders, bidPriceLevelComparator, f64_lt, f64_gt.
  rewrite (SFltb_irrefl k). split; [reflexivity|]. split.
  - intros a b.
    destruct (SFltb k a) eqn:Hka; [lia|]. destruct (SFltb a k) eqn:Hak; [lia|].
    destruct (SFltb a b) eqn:Hab; [lia|]. destruct (SFltb b a) eqn:Hba; [|lia].
    intros _ _. rewrite (SFltb_equiv_r k a b Hk Hka Hak Hba).
    rewrite (SFltb_asym b k (SFltb_equiv_r k a b Hk Hka Hak Hba)). lia.
  - intros a.
    destruct (SFltb k a) eqn:Hka.
    + rewrite (SFltb_asym k a Hka). lia.
    + destruct (SFltb a k) eqn:Hak; lia.
Qed.

Section OrderedMap.
Variable cmp : float64 -> float64 -> Z.







Lemma sorted_tail k v r : rbt.sorted cmp ((k, v) :: r) = true -> rbt.sorted cmp r = true.
Proof.
  cbn. destruct r as [|[k' v'] r']; [reflexivity|].
  intros Hs. now apply andb_prop in Hs.
Qed.

Lemma sorted_head k v k' v' r :
  rbt.sorted cmp ((k, v) :: (k', v') :: r) = true -> (cmp k k' < 0)%Z.
Proof.
  cbn. intros Hs. apply andb_prop in Hs as [Hlt _]. now apply Z.ltb_lt.
Qed.

Lemma sorted_cons k v k' v' r :
  (cmp k k' < 0)%Z -> rbt.sorted cmp ((k', v') :: r) = true ->
  rbt.sorted cmp ((k, v) :: (k', v') :: r) = true.
Proof.
  intros Hlt Hs. change (((cmp k k' <? 0)%Z && rbt.sorted cmp ((k', v') :: r)) = true).
  apply andb_true_intro. split; [now apply Z.ltb_lt | exact Hs].
Qed.


(** [Put] and [Remove] keep the entries in order. *)
Lemma put_sorted key value l :
  rbt.orders cmp key -> rbt.sorted cmp l = true ->
  rbt.sorted cmp (rbt.put cmp key value l) = true.
Proof.
  intros (Hrefl & Hcompat & Hflip). induction l as [|[k v] r IH]; intros Hs.
  - reflexivity.
  - cbn [rbt.put]. walk cmp key k.
    + destruct r as [|[k' v'] r']; [reflexivity|].
      apply sorted_cons; [| eapply sorted_tail; eassumption].
      exact (Hcompat k k' He (sorted_head _ _ _ _ _ Hs)).
    + now apply sorted_cons.
    + pose proof (Hflip k He ltac:(lia)) as Hlt.
      specialize (IH (sorted_tail _ _ _ Hs)).
      destruct r as [|[k' v'] r']; [now apply sorted_cons|].
      pose proof (sorted_head _ _ _ _ _ Hs) as Hkk'.
      cbn [rbt.put] in *. walk cmp key k'; now apply sorted_cons.
Qed.

Lemma remove_sorted key l :
  rbt.sorted cmp l = true -> (forall a b c, cmp a b < 0 -> cmp b c < 0 -> cmp a c < 0)%Z ->
  rbt.sorted cmp (rbt.remove cmp key l) = true.
Proof.
  intros Hs Htrans. induction l as [|[k v] r IH]; [reflexivity|].
  cbn [rbt.remove]. walk cmp key k.
  - eapply sorted_tail; eassumption.
  - exact Hs.
  - specialize (IH (sorted_tail _ _ _ Hs)).
    destruct r as [|[k' v'] r']; [reflexivity|].
    pose proof (sorted_head _ _ _ _ _ Hs) as Hkk'.
    cbn [rbt.remove] in *. walk cmp key k'.
    + destruct r' as [|[k'' v''] r'']; [reflexivity|].
      apply sorted_cons; [| exact IH].
      apply (Htrans k k' k'' Hkk').
      exact (sorted_head _ _ _ _ _ (sorted_tail _ _ _ Hs)).
    + exact Hs.
    + now apply sorted_cons.
Qed.

End OrderedMap.

(** * The claims of the specification *)

Section Claims.
Context `{Externals}.

(** C1. [calCrc32] cuts each side to its first 25 levels; when the two cuts
    have the same length its pre-hash string interleaves, per index,
    bid price, bid size, ask price, ask size, and otherwise it is all bid
    price:size pairs followed by all ask pairs, every text joined by ":"
    ([preHash]); the checksum it returns is the IEEE CRC-32 of that string
    read as a signed 32-bit integer. It never panics. On the bids
    [[100.0,"1"],[99.0,"2"]] and asks [[101.0,"1"],[102.0,"2"]], with
    [%v] printing these four numbers as Go does, the pre-hash string is
    "100:1:101:1:99:2:102:2". *)
Theorem calCrc32_interleaves :
  (forall askDepths bidDepths : list level,
     exists crc : Z,
       calCrc32 askDepths bidDepths = Ret (preHash askDepths bidDepths, crc)
       /\ crc = int32_of_uint32 (ChecksumIEEE (preHash askDepths bidDepths))
       /\ (-2147483648 <= crc < 2147483648)%Z
       /\ (crc mod 4294967296
           = ChecksumIEEE (preHash askDepths bidDepths) mod 4294967296)%Z)
  /\ (FormatFloat (float64_of_Z 100) = "100" ->
      FormatFloat (float64_of_Z 99) = "99" ->
      FormatFloat (float64_of_Z 101) = "101" ->
      FormatFloat (float64_of_Z 102) = "102" ->
      exists crc : Z,
        calCrc32 scenarioAsks scenarioBids = Ret ("100:1:101:1:99:2:102:2", crc)).
Proof.
  split.
  - intros askDepths bidDepths. eexists. split; [apply calCrc32_preHash|].
    split; [reflexivity|]. apply int32_of_uint32_range.
  - intros H100 H99 H101 H102. eexists. rewrite calCrc32_preHash.
    unfold preHash, scenarioAsks, scenarioBids, lvlNum, pairText. cbn -[float64_of_Z].
    rewrite H100, H99, H101, H102. reflexivity.
Qed.


Lemma bookSide_refl (side : rbt.Tree) (k : float64) :
  bookSide side -> rbt.Comparator side k k = 0%Z.
Proof.
  intros [-> | ->]; unfold askPriceLevelComparator, bidPriceLevelComparator,
    f64_lt, f64_gt; now rewrite SFltb_irrefl.
Qed.

Lemma bookSide_orders (side : rbt.Tree) (k : float64) :
  bookSide side -> is_nan k = false -> rbt.orders (rbt.Comparator side) k.
Proof.
  intros [-> | ->] Hk; [now apply ask_orders | now apply bid_orders].
Qed.


End Claims.

(** * Loops over a message *)

Section Loops.
Context `{Externals}.

Lemma bind_Ret {A B : Type} (a : A) (k : A -> Outcome B) : (Ret a ≫= k) = k a.
Proof. reflexivity. Qed.

Lemma bind_Panic {A B : Type} (why : string) (k : A -> Outcome B) :
  (Panic why ≫= k) = Panic why.
Proof. reflexivity. Qed.

(** Merging a list of deltas is merging a prefix and, unless that failed,
    the rest. *)
Lemma mergeDepths_app (pre rest : list level) (side : rbt.Tree) :
  mergeDepths side (pre ++ rest)
  = '(t, e) ← mergeDepths side pre;
    match e with
    | Some _ => Ret (t, e)
    | None => mergeDepths t rest
    end.
Proof.
  revert side. induction pre as [|a pre IH]; intros side; [reflexivity|].
  cbn [app mergeDepths].
  destruct (assertString (e0 a)) as [price|why]; [|reflexivity].
  rewrite !bind_Ret.
  destruct (ParseFloat price) as [newPrice [err|]]; [reflexivity|].
  destruct (assertString (e1 a)) as [size|why]; [|reflexivity].
  rewrite !bind_Ret.
  destruct (StringToInt64 size =? 0)%Z; apply IH.
Qed.

(** The only error of [mergeDepths] is the one of a price that does not
    parse: a size has no way to fail. *)
Lemma mergeDepths_error (deltas : list level) (side t : rbt.Tree) (e : error) :
  mergeDepths side deltas = Ret (t, Some e) -> exists cause, e = BadPrice cause.
Proof.
  revert side. induction deltas as [|a deltas IH]; intros side; [discriminate|].
  cbn [mergeDepths].
  destruct (assertString (e0 a)) as [price|why]; [|discriminate].
  rewrite bind_Ret.
  destruct (ParseFloat price) as [newPrice [err|]].
  - intros [= _ <-]. now exists err.
  - destruct (assertString (e1 a)) as [size|why]; [|discriminate].
    rewrite bind_Ret. destruct (StringToInt64 size =? 0)%Z; apply IH.
Qed.

Lemma loadPartial_app (pre rest : list WsDepthUpdates.t) (m : gmap string WSDepthItem.t) :
  WSHotDepths.loadPartial m (pre ++ rest)
  = '(m', e) ← WSHotDepths.loadPartial m pre;
    match e with
    | Some _ => Ret (m', e)
    | None => WSHotDepths.loadPartial m' rest
    end.
Proof.
  revert m. induction pre as [|u pre IH]; intros m; [reflexivity|].
  cbn [app WSHotDepths.loadPartial].
  rewrite calCrc32_preHash, !bind_Ret.
  destruct (_ =? _)%Z; [|reflexivity].
  destruct (newDepthItem u) as [item|why]; [|reflexivity].
  rewrite !bind_Ret. apply IH.
Qed.

Lemma loadUpdate_app (pre rest : list WsDepthUpdates.t) (m : gmap string WSDepthItem.t) :
  WSHotDepths.loadUpdate m (pre ++ rest)
  = '(m', e) ← WSHotDepths.loadUpdate m pre;
    match e with
    | Some _ => Ret (m', e)
    | None => WSHotDepths.loadUpdate m' rest
    end.
Proof.
  revert m. induction pre as [|u pre IH]; intros m; [reflexivity|].
  cbn [app WSHotDepths.loadUpdate].
  destruct (m !! WsDepthUpdates.InstrumentId u) as [oldDI|].
  - destruct (WSDepthItem.update oldDI u) as [[oldDI' [err|]]|why];
      [reflexivity | | reflexivity].
    rewrite !bind_Ret. apply IH.
  - destruct (newDepthItem u) as [item|why]; [|reflexivity].
    rewrite !bind_Ret. apply IH.
Qed.

(** The snapshot loop writes the registry at the instruments of its
    entries only. *)
Lemma loadPartial_other (data : list WsDepthUpdates.t) (m m' : gmap string WSDepthItem.t)
    (e : option error) (instrumentId : string) :
  WSHotDepths.loadPartial m data = Ret (m', e) ->
  (forall v, In v data -> WsDepthUpdates.InstrumentId v <> instrumentId) ->
  m' !! instrumentId = m !! instrumentId.
Proof.
  revert m. induction data as [|u data IH]; intros m.
  - intros [= <- _] _. reflexivity.
  - cbn [WSHotDepths.loadPartial]. rewrite calCrc32_preHash, bind_Ret.
    destruct (_ =? _)%Z.
    + destruct (newDepthItem u) as [item|why]; [|discriminate].
      rewrite bind_Ret. intros Hrun Hother.
      rewrite (IH _ Hrun) by (intros v Hv; apply Hother; now right).
      apply lookup_insert_ne. apply Hother. now left.
    + intros [= <- _] _. reflexivity.
Qed.

(** The closing loop. *)
Lemma checkBest_ok (data : list WsDepthUpdates.t) (m : gmap string WSDepthItem.t) :
  WSHotDepths.checkBest m data = Ret None ->
  forall u, In u data ->
    exists depth ask1 askLevel bid1 bidLevel,
      m !! WsDepthUpdates.InstrumentId u = Some depth
      /\ rbt.Left (WSDepthItem.Asks depth) = Some (ask1, askLevel)
      /\ rbt.Left (WSDepthItem.Bids depth) = Some (bid1, bidLevel)
      /\ f64_ge bid1 ask1 = false.
Proof.
  induction data as [|u0 data IH]; intros Hrun u Hu; [destruct Hu|].
  cbn [WSHotDepths.checkBest] in Hrun.
  destruct (m !! WsDepthUpdates.InstrumentId u0) as [depth|] eqn:Hm; [|discriminate].
  destruct (rbt.Left (WSDepthItem.Asks depth)) as [[ask1 la]|] eqn:Ha; [|discriminate].
  destruct (rbt.Left (WSDepthItem.Bids depth)) as [[bid1 lb]|] eqn:Hb; [|discriminate].
  destruct (f64_ge bid1 ask1) eqn:Hge; [discriminate|].
  destruct Hu as [<- | Hu]; [| now apply IH].
  exists depth, ask1, la, bid1, lb. auto.
Qed.

Lemma checkBest_missing (m : gmap string WSDepthItem.t) (u : WsDepthUpdates.t)
    (rest : list WsDepthUpdates.t) :
  m !! WsDepthUpdates.InstrumentId u = None ->
  WSHotDepths.checkBest m (u :: rest)
  = Panic "invalid memory address or nil pointer dereference".
Proof. intros Hm. cbn. now rewrite Hm. Qed.

Lemma checkBest_no_asks (m : gmap string WSDepthItem.t) (u : WsDepthUpdates.t)
    (rest : list WsDepthUpdates.t) (depth : WSDepthItem.t) :
  m !! WsDepthUpdates.InstrumentId u = Some depth ->
  rbt.entries (WSDepthItem.Asks depth) = [] ->
  WSHotDepths.checkBest m (u :: rest)
  = Panic "invalid memory address or nil pointer dereference".
Proof. intros Hm Hasks. cbn. rewrite Hm. unfold rbt.Left. now rewrite Hasks. Qed.

(** An update without ask levels leaves the ask side as it is. *)
Lemma update_keeps_asks (di di' : WSDepthItem.t) (newDI : WsDepthUpdates.t)
    (e : option error) :
  WsDepthUpdates.Asks newDI = [] ->
  WSDepthItem.update di newDI = Ret (di', e) ->
  WSDepthItem.Asks di' = WSDepthItem.Asks di.
Proof.
  intros Hasks. unfold WSDepthItem.update. rewrite Hasks.
  cbn [mergeDepths]. rewrite bind_Ret.
  destruct (mergeDepths _ _) as [[bids [err|]]|why]; [| | discriminate].
  - rewrite bind_Ret. now intros [= <- _].
  - rewrite bind_Ret, calCrc32_preHash, bind_Ret.
    destruct (negb _); now intros [= <- _].
Qed.

Lemma newDepthItem_no_asks (u : WsDepthUpdates.t) (item : WSDepthItem.t) :
  WsDepthUpdates.Asks u = [] ->
  newDepthItem u = Ret item ->
  rbt.entries (WSDepthItem.Asks item) = [].
Proof.
  intros Hasks. unfold newDepthItem.
  destruct (WSDepthItem.update _ u) as [[di' e]|why] eqn:Hupd; [|discriminate].
  rewrite bind_Ret. intros [= <-].
  now rewrite (update_keeps_asks _ _ _ _ Hasks Hupd).
Qed.

(** Merging into a side of a book in order leaves a side of a book in
    order, as long as no price reads as a NaN. *)
Lemma book_comparator_trans (side : rbt.Tree) (a b c : float64) :
  bookSide side ->
  (rbt.Comparator side a b < 0 -> rbt.Comparator side b c < 0 ->
   rbt.Comparator side a c < 0)%Z.
Proof.
  intros [-> | ->]; unfold askPriceLevelComparator, bidPriceLevelComparator,
    f64_lt, f64_gt.
  - destruct (SFltb a b) eqn:Hab; [| destruct (SFltb b a); lia].
    destruct (SFltb b c) eqn:Hbc; [| destruct (SFltb c b); lia].
    intros _ _. now rewrite (SFltb_trans a b c Hab Hbc).
  - destruct (SFltb a b) eqn:Hab; [lia|]. destruct (SFltb b a) eqn:Hba; [|lia].
    destruct (SFltb b c) eqn:Hbc; [lia|]. destruct (SFltb c b) eqn:Hcb; [|lia].
    intros _ _. pose proof (SFltb_trans c b a Hcb Hba) as Hca.
    rewrite Hca, (SFltb_asym c a Hca). lia.
Qed.

Lemma mergeDepths_keeps_order (deltas : list level) (side side' : rbt.Tree)
    (e : option error) :
  (forall s p, ParseFloat s = (p, None) -> is_nan p = false) ->
  bookSide side -> rbt.wf side ->
  mergeDepths side deltas = Ret (side', e) ->
  bookSide side' /\ rbt.wf side'.
Proof.
  intros Hnum. revert side. induction deltas as [|a deltas IH]; intros side Hside Hwf.
  - intros [= <- _]. now split.
  - cbn [mergeDepths].
    destruct (assertString (e0 a)) as [price|why]; [|discriminate].
    rewrite bind_Ret.
    destruct (ParseFloat price) as [newPrice [err|]] eqn:Hparse.
    + intros [= <- _]. now split.
    + destruct (assertString (e1 a)) as [size|why]; [|discriminate].
      rewrite bind_Ret. pose proof (Hnum _ _ Hparse) as Hnan.
      destruct (StringToInt64 size =? 0)%Z; apply IH; try exact Hside.
      * apply remove_sorted; [exact Hwf|].
        intros x y z. now apply book_comparator_trans.
      * apply put_sorted; [| exact Hwf]. now apply bookSide_orders.
Qed.

End Loops.

(** * The registry and the classifier *)

Section Registry.
Context `{Externals}.

(** What [loadWSDepthTableResponse] does with a message of its table that
    is valid: the loop of the action, then the closing loop unless the
    first one reported an error. *)
Lemma load_partial (d : WSHotDepths.t) (r : WSDepthTableResponse.t) :
  WSHotDepths.Table d = WSDepthTableResponse.Table r ->
  WSDepthTableResponse.Valid r = true ->
  WSDepthTableResponse.Action r = "partial" ->
  WSHotDepths.loadWSDepthTableResponse d r
  = '(m, err) ← WSHotDepths.loadPartial (WSHotDepths.DepthMap d) (WSDepthTableResponse.Data r);
    match err with
    | Some err => Ret (WSHotDepths.mk (WSDepthTableResponse.Table r) m, Some err)
    | None =>
        err ← WSHotDepths.checkBest m (WSDepthTableResponse.Data r);
        Ret (WSHotDepths.mk (WSDepthTableResponse.Table r) m, err)
    end.
Proof.
  intros Htable Hvalid Haction. unfold WSHotDepths.loadWSDepthTableResponse.
  rewrite Htable, String.eqb_refl, Hvalid, Haction. cbn [negb String.eqb Ascii.eqb Bool.eqb].
  cbn [WSHotDepths.DepthMap WSHotDepths.Table].
  destruct (WSHotDepths.loadPartial _ _) as [[m [err|]]|why]; reflexivity.
Qed.

Lemma load_update (d : WSHotDepths.t) (r : WSDepthTableResponse.t) :
  WSHotDepths.Table d = WSDepthTableResponse.Table r ->
  WSDepthTableResponse.Valid r = true ->
  WSDepthTableResponse.Action r = "update" ->
  WSHotDepths.loadWSDepthTableResponse d r
  = '(m, err) ← WSHotDepths.loadUpdate (WSHotDepths.DepthMap d) (WSDepthTableResponse.Data r);
    match err with
    | Some err => Ret (WSHotDepths.mk (WSHotDepths.Table d) m, Some err)
    | None =>
        err ← WSHotDepths.checkBest m (WSDepthTableResponse.Data r);
        Ret (WSHotDepths.mk (WSHotDepths.Table d) m, err)
    end.
Proof.
  intros Htable Hvalid Haction. unfold WSHotDepths.loadWSDepthTableResponse.
  rewrite Htable, String.eqb_refl, Hvalid, Haction. cbn [negb String.eqb Ascii.eqb Bool.eqb].
  cbn [WSHotDepths.DepthMap WSHotDepths.Table].
  destruct (WSHotDepths.loadUpdate _ _) as [[m [err|]]|why]; reflexivity.
Qed.

Lemma load_other (d : WSHotDepths.t) (r : WSDepthTableResponse.t) :
  WSHotDepths.Table d = WSDepthTableResponse.Table r ->
  WSDepthTableResponse.Valid r = true ->
  WSDepthTableResponse.Action r <> "partial" ->
  WSDepthTableResponse.Action r <> "update" ->
  WSHotDepths.loadWSDepthTableResponse d r
  = err ← WSHotDepths.checkBest (WSHotDepths.DepthMap d) (WSDepthTableResponse.Data r);
    Ret (d, err).
Proof.
  intros Htable Hvalid Hp Hu. unfold WSHotDepths.loadWSDepthTableResponse.
  rewrite Htable, String.eqb_refl, Hvalid. cbn [negb].
  apply String.eqb_neq in Hp, Hu. rewrite Hp, Hu. reflexivity.
Qed.

(** The part of C4 that holds (X1). Every book a message was accepted
    with: both sides are non-empty and
    the guard [bid1 >= ask1] is false on its best prices, which makes the
    best bid less than the best ask whenever both are numbers. *)
Lemma accepted_books_pass_the_guard (d d' : WSHotDepths.t) (r : WSDepthTableResponse.t) :
  WSHotDepths.loadWSDepthTableResponse d r = Ret (d', None) ->
  forall u, In u (WSDepthTableResponse.Data r) ->
    exists depth ask1 askLevel bid1 bidLevel,
      WSHotDepths.DepthMap d' !! WsDepthUpdates.InstrumentId u = Some depth
      /\ rbt.Left (WSDepthItem.Asks depth) = Some (ask1, askLevel)
      /\ rbt.Left (WSDepthItem.Bids depth) = Some (bid1, bidLevel)
      /\ f64_ge bid1 ask1 = false
      /\ (is_nan bid1 = false -> is_nan ask1 = false -> f64_lt bid1 ask1 = true).
Proof.
  intros Hrun u Hu.
  assert (Hcheck : WSHotDepths.checkBest (WSHotDepths.DepthMap d')
                     (WSDepthTableResponse.Data r) = Ret None).
  { unfold WSHotDepths.loadWSDepthTableResponse in Hrun.
    destruct (negb (String.eqb _ _)); [discriminate|].
    destruct (negb (WSDepthTableResponse.Valid r)); [discriminate|].
    destruct (String.eqb (WSDepthTableResponse.Action r) "partial").
    - destruct (WSHotDepths.loadPartial _ _) as [[m [err|]]|why]; try discriminate.
      cbn in Hrun.
      destruct (WSHotDepths.checkBest m _) as [[e|]|why] eqn:Hc; try discriminate.
      injection Hrun as <-. exact Hc.
    - destruct (String.eqb (WSDepthTableResponse.Action r) "update").
      + destruct (WSHotDepths.loadUpdate _ _) as [[m [err|]]|why]; try discriminate.
        cbn in Hrun.
        destruct (WSHotDepths.checkBest m _) as [[e|]|why] eqn:Hc; try discriminate.
        injection Hrun as <-. exact Hc.
      + cbn in Hrun.
        destruct (WSHotDepths.checkBest _ _) as [[e|]|why] eqn:Hc; try discriminate.
        injection Hrun as <-. exact Hc. }
  destruct (checkBest_ok _ _ Hcheck u Hu) as (depth & ask1 & la & bid1 & lb & Hm & Ha & Hb & Hge).
  exists depth, ask1, la, bid1, lb. repeat split; try assumption.
  intros Hnb Hna. unfold f64_lt. unfold f64_ge in Hge.
  now apply SFleb_false_lt.
Qed.

(** C5, amended. In a snapshot message, the entry whose own checksum does
    not match, reached after the entries before it were installed without
    a panic: [loadWSDepthTableResponse] returns the checksum error and the
    entry installs nothing, the registry being what the entries before it
    made of it; so the instrument is absent afterwards when it was absent
    before the message and no entry before this one carries it. *)
Theorem snapshot_mismatch_installs_nothing (d : WSHotDepths.t)
    (r : WSDepthTableResponse.t) (pre post : list WsDepthUpdates.t)
    (u : WsDepthUpdates.t) (m : gmap string WSDepthItem.t) :
  WSHotDepths.Table d = WSDepthTableResponse.Table r ->
  WSDepthTableResponse.Valid r = true ->
  WSDepthTableResponse.Action r = "partial" ->
  WSDepthTableResponse.Data r = pre ++ u :: post ->
  WSHotDepths.loadPartial (WSHotDepths.DepthMap d) pre = Ret (m, None) ->
  checksumOf (WsDepthUpdates.Asks u) (WsDepthUpdates.Bids u) <> WsDepthUpdates.Checksum u ->
  WSHotDepths.loadWSDepthTableResponse d r
  = Ret (WSHotDepths.mk (WSDepthTableResponse.Table r) m,
         Some (ChecksumError
                 (preHash (WsDepthUpdates.Asks u) (WsDepthUpdates.Bids u))
                 (checksumOf (WsDepthUpdates.Asks u) (WsDepthUpdates.Bids u))
                 (WsDepthUpdates.Checksum u)))
  /\ (WSHotDepths.DepthMap d !! WsDepthUpdates.InstrumentId u = None ->
      (forall v, In v pre ->
         WsDepthUpdates.InstrumentId v <> WsDepthUpdates.InstrumentId u) ->
      m !! WsDepthUpdates.InstrumentId u = None).
Proof.
  intros Htable Hvalid Haction Hdata Hpre Hsum. split.
  - rewrite load_partial by assumption.
    rewrite Hdata, loadPartial_app, Hpre, bind_Ret.
    cbn [WSHotDepths.loadPartial]. rewrite calCrc32_preHash, bind_Ret.
    fold (checksumOf (WsDepthUpdates.Asks u) (WsDepthUpdates.Bids u)).
    apply Z.eqb_neq in Hsum. now rewrite Hsum.
  - intros Habsent Hother.
    now rewrite (loadPartial_other pre _ _ _ _ Hpre Hother).
Qed.

(** C6, amended. A failure that the loop of a message reports for one
    payload (the checksum mismatch of a snapshot entry, the error of
    [update] on a book of the registry) ends the processing of the whole
    message: [loadWSDepthTableResponse] returns that error with the
    registry as it stood then, whatever payloads follow. *)
Theorem failure_ends_the_message (d : WSHotDepths.t) (r : WSDepthTableResponse.t)
    (pre post : list WsDepthUpdates.t) (u : WsDepthUpdates.t)
    (m m' : gmap string WSDepthItem.t) (e : error) :
  WSHotDepths.Table d = WSDepthTableResponse.Table r ->
  WSDepthTableResponse.Valid r = true ->
  WSDepthTableResponse.Data r = pre ++ u :: post ->
  (WSDepthTableResponse.Action r = "partial"
   /\ WSHotDepths.loadPartial (WSHotDepths.DepthMap d) pre = Ret (m, None)
   /\ WSHotDepths.loadPartial m [u] = Ret (m', Some e))
  \/ (WSDepthTableResponse.Action r = "update"
      /\ WSHotDepths.loadUpdate (WSHotDepths.DepthMap d) pre = Ret (m, None)
      /\ WSHotDepths.loadUpdate m [u] = Ret (m', Some e)) ->
  WSHotDepths.loadWSDepthTableResponse d r
  = Ret (WSHotDepths.mk (WSHotDepths.Table d) m', Some e).
Proof.
  intros Htable Hvalid Hdata [(Haction & Hpre & Hu) | (Haction & Hpre & Hu)].
  - rewrite load_partial by assumption. rewrite <- Htable.
    rewrite Hdata, loadPartial_app, Hpre, bind_Ret.
    change (u :: post) with ([u] ++ post).
    now rewrite loadPartial_app, Hu, bind_Ret.
  - rewrite load_update by assumption.
    rewrite Hdata, loadUpdate_app, Hpre, bind_Ret.
    change (u :: post) with ([u] ++ post).
    now rewrite loadUpdate_app, Hu, bind_Ret.
Qed.

(** C7, amended. A delta level whose price does not parse stops the merge
    of its side with an error: the levels before it have been applied
    and stay applied, the levels behind it are not applied. In [update]
    such a level among the asks returns the error with the ask side so
    merged and with the bid side, the checksum and the timestamp as they
    were. A size is read by [StringToInt64] and cannot fail: every error
    of [mergeDepths] is that of a price. *)
Theorem parse_failure_stops_the_merge (side side' : rbt.Tree)
    (pre post : list level) (bad : level) (price : string) (f : float64)
    (err : error) :
  mergeDepths side pre = Ret (side', None) ->
  e0 bad = IString price ->
  ParseFloat price = (f, Some err) ->
  mergeDepths side (pre ++ bad :: post) = Ret (side', Some (BadPrice err))
  /\ (forall (di : WSDepthItem.t) (newDI : WsDepthUpdates.t),
        WSDepthItem.Asks di = side ->
        WsDepthUpdates.Asks newDI = pre ++ bad :: post ->
        WSDepthItem.update di newDI
        = Ret (WSDepthItem.setAsks di side', Some (BadPrice err)))
  /\ (forall (deltas : list level) (t t' : rbt.Tree) (e : error),
        mergeDepths t deltas = Ret (t', Some e) -> exists cause, e = BadPrice cause).
Proof.
  intros Hpre Hbad Hparse.
  assert (Hmerge : mergeDepths side (pre ++ bad :: post)
                   = Ret (side', Some (BadPrice err))).
  { rewrite mergeDepths_app, Hpre, bind_Ret. cbn [mergeDepths].
    rewrite Hbad. cbn [assertString]. rewrite bind_Ret. now rewrite Hparse. }
  split; [exact Hmerge|]. split.
  - intros di newDI Hdi Hnew. unfold WSDepthItem.update.
    now rewrite Hdi, Hnew, Hmerge, bind_Ret.
  - intros deltas t t' e. apply mergeDepths_error.
Qed.

(** C10. The closing loop of [loadWSDepthTableResponse] reads the best
    ask and the best bid of every entry's book without a check: a valid
    message of the registry's table whose action is neither "partial" nor
    "update" and whose first entry has no book panics, and so does a
    snapshot of one entry that has no ask level and carries the right
    checksum. Both kinds of message exist. *)
Theorem loadWSDepthTableResponse_panics :
  (forall (d : WSHotDepths.t) (r : WSDepthTableResponse.t) (u : WsDepthUpdates.t)
          (rest : list WsDepthUpdates.t),
     WSHotDepths.Table d = WSDepthTableResponse.Table r ->
     WSDepthTableResponse.Valid r = true ->
     WSDepthTableResponse.Action r <> "partial" ->
     WSDepthTableResponse.Action r <> "update" ->
     WSDepthTableResponse.Data r = u :: rest ->
     WSHotDepths.DepthMap d !! WsDepthUpdates.InstrumentId u = None ->
     WSHotDepths.loadWSDepthTableResponse d r
     = Panic "invalid memory address or nil pointer dereference")
  /\ (forall (d : WSHotDepths.t) (r : WSDepthTableResponse.t) (u : WsDepthUpdates.t),
       WSHotDepths.Table d = WSDepthTableResponse.Table r ->
       WSDepthTableResponse.Valid r = true ->
       WSDepthTableResponse.Action r = "partial" ->
       WSDepthTableResponse.Data r = [u] ->
       WsDepthUpdates.Asks u = [] ->
       checksumOf [] (WsDepthUpdates.Bids u) = WsDepthUpdates.Checksum u ->
       exists why, WSHotDepths.loadWSDepthTableResponse d r = Panic why)
  /\ (exists r why,
       WSDepthTableResponse.Valid r = true
       /\ WSDepthTableResponse.Action r = ""
       /\ WSHotDepths.loadWSDepthTableResponse emptyRegistry r = Panic why)
  /\ (exists r why,
       WSDepthTableResponse.Valid r = true
       /\ WSDepthTableResponse.Action r = "partial"
       /\ WSHotDepths.loadWSDepthTableResponse emptyRegistry r = Panic why).
Proof.
  assert (Hmissing : forall d r u rest,
     WSHotDepths.Table d = WSDepthTableResponse.Table r ->
     WSDepthTableResponse.Valid r = true ->
     WSDepthTableResponse.Action r <> "partial" ->
     WSDepthTableResponse.Action r <> "update" ->
     WSDepthTableResponse.Data r = u :: rest ->
     WSHotDepths.DepthMap d !! WsDepthUpdates.InstrumentId u = None ->
     WSHotDepths.loadWSDepthTableResponse d r
     = Panic "invalid memory address or nil pointer dereference").
  { intros d r u rest Htable Hvalid Hp Hu Hdata Hm.
    rewrite load_other by assumption. rewrite Hdata.
    now rewrite checkBest_missing. }
  assert (Hnoasks : forall d r u,
     WSHotDepths.Table d = WSDepthTableResponse.Table r ->
     WSDepthTableResponse.Valid r = true ->
     WSDepthTableResponse.Action r = "partial" ->
     WSDepthTableResponse.Data r = [u] ->
     WsDepthUpdates.Asks u = [] ->
     checksumOf [] (WsDepthUpdates.Bids u) = WsDepthUpdates.Checksum u ->
     exists why, WSHotDepths.loadWSDepthTableResponse d r = Panic why).
  { intros d r u Htable Hvalid Haction Hdata Hasks Hsum.
    rewrite load_partial by assumption. rewrite Hdata.
    cbn [WSHotDepths.loadPartial]. rewrite calCrc32_preHash, bind_Ret.
    rewrite Hasks. fold (checksumOf [] (WsDepthUpdates.Bids u)).
    rewrite Hsum, Z.eqb_refl.
    destruct (newDepthItem u) as [item|why] eqn:Hitem; [| now exists why].
    rewrite !bind_Ret. eexists.
    erewrite checkBest_no_asks; [reflexivity | apply lookup_insert_eq |].
    now apply (newDepthItem_no_asks u). }
  split; [exact Hmissing|]. split; [exact Hnoasks|]. split.
  - exists (message "" [WsDepthUpdates.mk "BTC-USD-SWAP" [] [] "" 0]). eexists.
    split; [reflexivity|]. split; [reflexivity|].
    eapply Hmissing; try reflexivity; discriminate.
  - set (u := WsDepthUpdates.mk "BTC-USD-SWAP" [] [lvl "100" "1"] ""
                (checksumOf [] [lvl "100" "1"])).
    destruct (Hnoasks emptyRegistry (message "partial" [u]) u) as [why Hwhy];
      try reflexivity.
    exists (message "partial" [u]), why. auto.
Qed.

End Registry.

Section Classifier.
Context `{Json}.

Lemma length_pos_iff (s : string) : (0 <? String.length s)%nat = true <-> s <> "".
Proof. destruct s; cbn; split; intros; congruence. Qed.

(** C8, amended. [loadResponse] tries, in this order, the event response,
    the depth table response, the table response and the error response,
    each decoded from the message and kept when its decode has no error
    and its [Valid] holds, and then the string "pong"; it returns the
    first that is kept, with a nil error. When none is kept it returns
    no response together with the error of the last decode, that of the
    error response, which is nil when that decode succeeded. An event
    response is valid exactly when its event and its channel are not
    empty or its event is "login"; a depth table response exactly when
    its table contains "depth" and it has a data entry. *)
Theorem loadResponse_first_valid (rspMsg : string) :
  let evt := JsonBytes2Struct_Event rspMsg in
  let dep := JsonBytes2Struct_Depth rspMsg in
  let tab := JsonBytes2Struct_Table rspMsg in
  let err := JsonBytes2Struct_Error rspMsg in
  let okEvt := isNil evt.2 && WSEventResponse.Valid evt.1 in
  let okDep := isNil dep.2 && WSDepthTableResponse.Valid dep.1 in
  let okTab := isNil tab.2 && WSTableResponse.Valid tab.1 in
  let okErr := isNil err.2 && WSErrorResponse.Valid err.1 in
  (okEvt = true -> loadResponse rspMsg = (Some (REvent evt.1), None))
  /\ (okEvt = false -> okDep = true ->
      loadResponse rspMsg = (Some (RDepth dep.1), None))
  /\ (okEvt = false -> okDep = false -> okTab = true ->
      loadResponse rspMsg = (Some (RTable tab.1), None))
  /\ (okEvt = false -> okDep = false -> okTab = false -> okErr = true ->
      loadResponse rspMsg = (Some (RError err.1), None))
  /\ (okEvt = false -> okDep = false -> okTab = false -> okErr = false ->
      (rspMsg = "pong" -> loadResponse rspMsg = (Some (RString "pong"), None))
      /\ (rspMsg <> "pong" -> loadResponse rspMsg = (None, err.2)))
  /\ (forall r : WSEventResponse.t,
        WSEventResponse.Valid r = true
        <-> (WSEventResponse.Event r <> "" /\ WSEventResponse.Channel r <> "")
            \/ WSEventResponse.Event r = "login")
  /\ (forall r : WSDepthTableResponse.t,
        WSDepthTableResponse.Valid r = true
        <-> Contains (WSDepthTableResponse.Table r) "depth" = true
            /\ WSDepthTableResponse.Data r <> []).
Proof.
  intros evt dep tab err okEvt okDep okTab okErr.
  unfold loadResponse.
  fold evt dep tab err.
  destruct evt as [evtR e1] eqn:Hevt, dep as [dtr e2] eqn:Hdep,
           tab as [tr e3] eqn:Htab, err as [er e4] eqn:Herr.
  cbn [fst snd] in *. fold okEvt okDep okTab okErr.
  clearbody okEvt okDep okTab okErr.
  split; [| split; [| split; [| split; [| split; [| split]]]]].
  - now intros ->.
  - now intros -> ->.
  - now intros -> -> ->.
  - now intros -> -> -> ->.
  - intros -> -> -> ->. split.
    + now intros ->.
    + intros Hpong. apply String.eqb_neq in Hpong. now rewrite Hpong.
  - intros r. unfold WSEventResponse.Valid. split.
    + intros Hv. apply orb_prop in Hv as [Hv | Hv].
      * apply andb_prop in Hv as [He Hc]. left. now rewrite <- !length_pos_iff.
      * right. now apply String.eqb_eq.
    + intros [[He Hc] | Hl].
      * apply length_pos_iff in He, Hc. now rewrite He, Hc.
      * apply String.eqb_eq in Hl. rewrite Hl. apply orb_true_r.
  - intros r. unfold WSDepthTableResponse.Valid. split.
    + intros Hv. apply andb_prop in Hv as [Hv Hd].
      apply andb_prop in Hv as [_ Hc]. split; [exact Hc|].
      destruct (WSDepthTableResponse.Data r); [discriminate | congruence].
    + intros [Hc Hd]. rewrite Hc.
      destruct (WSDepthTableResponse.Table r) eqn:Ht; [discriminate Hc|].
      destruct (WSDepthTableResponse.Data r); [congruence | reflexivity].
Qed.

End Classifier.

(** * An update for an instrument the registry does not hold *)

Section UnseenUpdate.
Context `{Externals}.

Lemma depth_table_valid (table action : string) (data : list WsDepthUpdates.t) :
  Contains table "depth" = true -> data <> [] ->
  WSDepthTableResponse.Valid (WSDepthTableResponse.mk table action data) = true.
Proof.
  intros Hc Hd. unfold WSDepthTableResponse.Valid. cbn. rewrite Hc.
  destruct table; [discriminate Hc|]. destruct data; [congruence | reflexivity].
Qed.

(** The part of C9 that holds (X2). When the entry carries the checksum
    of its own levels, an update for an instrument without a book is
    processed as the snapshot of that entry is. *)
Lemma unseen_update_with_right_checksum (d : WSHotDepths.t) (u : WsDepthUpdates.t) :
  Contains (WSHotDepths.Table d) "depth" = true ->
  WSHotDepths.DepthMap d !! WsDepthUpdates.InstrumentId u = None ->
  checksumOf (WsDepthUpdates.Asks u) (WsDepthUpdates.Bids u) = WsDepthUpdates.Checksum u ->
  WSHotDepths.loadWSDepthTableResponse d
    (WSDepthTableResponse.mk (WSHotDepths.Table d) "update" [u])
  = WSHotDepths.loadWSDepthTableResponse d
      (WSDepthTableResponse.mk (WSHotDepths.Table d) "partial" [u]).
Proof.
  intros Hc Hm Hsum.
  rewrite load_update, load_partial;
    try reflexivity; try (apply depth_table_valid; [exact Hc | discriminate]).
  cbn [WSDepthTableResponse.Data WSDepthTableResponse.Table
       WSHotDepths.loadUpdate WSHotDepths.loadPartial].
  rewrite Hm, calCrc32_preHash, bind_Ret.
  fold (checksumOf (WsDepthUpdates.Asks u) (WsDepthUpdates.Bids u)).
  now rewrite Hsum, Z.eqb_refl.
Qed.

End UnseenUpdate.

(** * Worked examples *)

Section Examples.
#[local] Existing Instance demoExternals.
#[local] Existing Instance demoJson.

Example ChecksumIEEE_check_value : ChecksumIEEE "123456789" = 3421780262%Z.
Proof. reflexivity. Qed.

Lemma calCrc32_interleaves_witness :
  FormatFloat (float64_of_Z 100) = "100"
  /\ FormatFloat (float64_of_Z 99) = "99"
  /\ FormatFloat (float64_of_Z 101) = "101"
  /\ FormatFloat (float64_of_Z 102) = "102"
  /\ exists crc : Z,
       calCrc32 scenarioAsks scenarioBids = Ret ("100:1:101:1:99:2:102:2", crc).
Proof.
  repeat (split; [reflexivity|]).
  apply (proj2 (@calCrc32_interleaves demoExternals)); reflexivity.
Defined.



(** C5, as stated, fails: a snapshot whose first entry installs the
    instrument X and whose second entry, for X again, carries a wrong
    checksum. The registry did not hold X; the message is refused with an
    error, and X is in the registry afterwards. *)
Lemma snapshot_mismatch_instrument_present :
  WSHotDepths.DepthMap emptyRegistry !! "X" = None
  /\ In entryXagain (WSDepthTableResponse.Data (message "partial" [entryX; entryXagain]))
  /\ checksumOf (WsDepthUpdates.Asks entryXagain) (WsDepthUpdates.Bids entryXagain)
     <> WsDepthUpdates.Checksum entryXagain
  /\ match WSHotDepths.loadWSDepthTableResponse emptyRegistry
             (message "partial" [entryX; entryXagain]) with
     | Ret (d', Some _) => installed d' "X" = true
     | _ => False
     end.
Proof.
  split; [reflexivity|]. split; [right; left; reflexivity|].
  split; [vm_compute; discriminate|]. vm_compute. reflexivity.
Qed.

Lemma snapshot_mismatch_installs_nothing_witness :
  let r := message "partial" [entryY; entryXwrong; entryX] in
  WSHotDepths.Table emptyRegistry = WSDepthTableResponse.Table r
  /\ WSDepthTableResponse.Valid r = true
  /\ WSHotDepths.loadPartial (WSHotDepths.DepthMap emptyRegistry) [entryY]
     = Ret (registryAfter [entryY], None)
  /\ checksumOf (WsDepthUpdates.Asks entryXwrong) (WsDepthUpdates.Bids entryXwrong)
     <> WsDepthUpdates.Checksum entryXwrong
  /\ WSHotDepths.loadWSDepthTableResponse emptyRegistry r
     = Ret (WSHotDepths.mk depthTable (registryAfter [entryY]),
            Some (ChecksumError "100:1:101:1" 1189976625 1189976626))
  /\ registryAfter [entryY] !! "X" = None.
Proof.
  intros r.
  assert (Hpre : WSHotDepths.loadPartial (WSHotDepths.DepthMap emptyRegistry) [entryY]
                 = Ret (registryAfter [entryY], None)) by (vm_compute; reflexivity).
  assert (Hsum : checksumOf (WsDepthUpdates.Asks entryXwrong)
                   (WsDepthUpdates.Bids entryXwrong)
                 <> WsDepthUpdates.Checksum entryXwrong) by (vm_compute; discriminate).
  assert (Hvalid : WSDepthTableResponse.Valid r = true) by reflexivity.
  destruct (snapshot_mismatch_installs_nothing emptyRegistry r [entryY] [entryX]
              entryXwrong (registryAfter [entryY]) eq_refl Hvalid eq_refl eq_refl
              Hpre Hsum) as [Hrun Habsent].
  repeat (split; [first [reflexivity | exact Hpre | exact Hsum | exact Hrun]|]).
  apply Habsent; [reflexivity|].
  intros v [<- | []]. discriminate.
Defined.

(** C6, as stated, fails: in a snapshot for X and Y, the wrong checksum
    of X keeps Y out of the registry, although the payload of Y alone is
    accepted and installs Y. *)
Lemma failure_of_one_instrument_drops_the_others :
  match WSHotDepths.loadWSDepthTableResponse emptyRegistry
          (message "partial" [entryXwrong; entryY]) with
  | Ret (d', Some _) => installed d' "Y" = false
  | _ => False
  end
  /\ match WSHotDepths.loadWSDepthTableResponse emptyRegistry
            (message "partial" [entryY]) with
     | Ret (d', None) => installed d' "Y" = true
     | _ => False
     end.
Proof. split; vm_compute; reflexivity. Qed.

Lemma failure_ends_the_message_witness :
  let r := message "partial" [entryXwrong; entryY] in
  let e := ChecksumError "100:1:101:1" 1189976625 1189976626 in
  WSHotDepths.Table emptyRegistry = WSDepthTableResponse.Table r
  /\ WSDepthTableResponse.Valid r = true
  /\ WSHotDepths.loadPartial (WSHotDepths.DepthMap emptyRegistry) [] = Ret (∅, None)
  /\ WSHotDepths.loadPartial ∅ [entryXwrong] = Ret (∅, Some e)
  /\ WSHotDepths.loadWSDepthTableResponse emptyRegistry r
     = Ret (WSHotDepths.mk depthTable ∅, Some e).
Proof.
  intros r e.
  assert (Hu : WSHotDepths.loadPartial ∅ [entryXwrong] = Ret (∅, Some e))
    by reflexivity.
  repeat (split; [first [reflexivity | exact Hu]|]).
  assert (Hvalid : WSDepthTableResponse.Valid r = true) by reflexivity.
  apply (failure_ends_the_message emptyRegistry r [] [entryY] entryXwrong ∅ ∅ e
           eq_refl Hvalid eq_refl).
  left. split; [reflexivity | split; [reflexivity | exact Hu]].
Defined.

(** C7, as stated, fails: an update whose second ask level has the price
    "abc" returns an error, and the ask side has taken the first level. *)
Lemma merge_is_partially_applied :
  match WSDepthItem.update book101
          (goodEntry "X" [lvl "102" "1"; lvl "abc" "1"] []) with
  | Ret (di', Some _) =>
      rbt.Size (WSDepthItem.Asks book101) = 1
      /\ rbt.Size (WSDepthItem.Asks di') = 2
  | _ => False
  end.
Proof. vm_compute. split; reflexivity. Qed.

Lemma parse_failure_stops_the_merge_witness :
  let side' := rbt.Put askSide101 (float64_of_Z 102) (lvl "102" "1") in
  mergeDepths askSide101 [lvl "102" "1"] = Ret (side', None)
  /\ e0 (lvl "abc" "1") = IString "abc"
  /\ ParseFloat "abc" = (S754_zero false, Some syntaxError)
  /\ mergeDepths askSide101 ([lvl "102" "1"] ++ lvl "abc" "1" :: [lvl "103" "1"])
     = Ret (side', Some (BadPrice syntaxError)).
Proof.
  intros side'.
  assert (Hpre : mergeDepths askSide101 [lvl "102" "1"] = Ret (side', None))
    by reflexivity.
  repeat (split; [first [reflexivity | exact Hpre]|]).
  assert (Hparse : ParseFloat "abc" = (S754_zero false, Some syntaxError))
    by reflexivity.
  apply (parse_failure_stops_the_merge askSide101 side' [lvl "102" "1"]
           [lvl "103" "1"] (lvl "abc" "1") "abc" (S754_zero false) syntaxError
           Hpre eq_refl Hparse).
Defined.

(** C8, as stated, fails: the message [{}] decodes into every struct,
    none of them valid, and is not "pong"; [loadResponse] returns no
    response and no error. *)
Lemma no_match_without_error : loadResponse "{}" = (None, None).
Proof. reflexivity. Qed.

(** C4 on a price that is not a number: the snapshot with the ask 1 and
    the bid "NaN" is accepted without an error, and the best bid of the
    book it installs is NaN, which is not less than the best ask. *)
Theorem nan_bid_passes_the_guard :
  match WSHotDepths.loadWSDepthTableResponse emptyRegistry
          (message "partial" [entryNaN]) with
  | Ret (d', None) =>
      match WSHotDepths.DepthMap d' !! "X" with
      | Some depth =>
          fst <$> rbt.Left (WSDepthItem.Bids depth) = Some S754_nan
          /\ fst <$> rbt.Left (WSDepthItem.Asks depth) = Some (float64_of_Z 1)
          /\ f64_lt S754_nan (float64_of_Z 1) = false
      | None => False
      end
  | _ => False
  end.
Proof. vm_compute. repeat split; reflexivity. Qed.

(** C9 on an update with a wrong checksum for an instrument the registry
    does not hold: as an update it is accepted and installs the book, as
    a snapshot it is refused and installs nothing. *)
Theorem unseen_update_skips_the_checksum :
  WSHotDepths.DepthMap emptyRegistry !! WsDepthUpdates.InstrumentId entryXwrong = None
  /\ match WSHotDepths.loadWSDepthTableResponse emptyRegistry
            (message "update" [entryXwrong]) with
     | Ret (d', None) => installed d' "X" = true
     | _ => False
     end
  /\ match WSHotDepths.loadWSDepthTableResponse emptyRegistry
            (message "partial" [entryXwrong]) with
     | Ret (d', Some _) => installed d' "X" = false
     | _ => False
     end.
Proof. split; [reflexivity|]. split; vm_compute; reflexivity. Qed.

Lemma accepted_books_pass_the_guard_witness :
  let r := message "partial" [entryY] in
  let d' := WSHotDepths.mk depthTable (registryAfter [entryY]) in
  WSHotDepths.loadWSDepthTableResponse emptyRegistry r = Ret (d', None)
  /\ In entryY (WSDepthTableResponse.Data r)
  /\ exists depth ask1 askLevel bid1 bidLevel,
       WSHotDepths.DepthMap d' !! WsDepthUpdates.InstrumentId entryY = Some depth
       /\ rbt.Left (WSDepthItem.Asks depth) = Some (ask1, askLevel)
       /\ rbt.Left (WSDepthItem.Bids depth) = Some (bid1, bidLevel)
       /\ f64_ge bid1 ask1 = false
       /\ (is_nan bid1 = false -> is_nan ask1 = false -> f64_lt bid1 ask1 = true).
Proof.
  intros r d'.
  assert (Hrun : WSHotDepths.loadWSDepthTableResponse emptyRegistry r = Ret (d', None))
    by (vm_compute; reflexivity).
  assert (Hin : In entryY (WSDepthTableResponse.Data r)) by (left; reflexivity).
  split; [exact Hrun|]. split; [exact Hin|].
  exact (accepted_books_pass_the_guard emptyRegistry d' r Hrun entryY Hin).
Defined.

Lemma unseen_update_with_right_checksum_witness :
  Contains (WSHotDepths.Table emptyRegistry) "depth" = true
  /\ WSHotDepths.DepthMap emptyRegistry !! WsDepthUpdates.InstrumentId entryX = None
  /\ checksumOf (WsDepthUpdates.Asks entryX) (WsDepthUpdates.Bids entryX)
     = WsDepthUpdates.Checksum entryX
  /\ WSHotDepths.loadWSDepthTableResponse emptyRegistry (message "update" [entryX])
     = WSHotDepths.loadWSDepthTableResponse emptyRegistry (message "partial" [entryX]).
Proof.
  assert (Hc : Contains (WSHotDepths.Table emptyRegistry) "depth" = true) by reflexivity.
  assert (Hsum : checksumOf (WsDepthUpdates.Asks entryX) (WsDepthUpdates.Bids entryX)
                 = WsDepthUpdates.Checksum entryX) by reflexivity.
  split; [exact Hc|]. split; [reflexivity|]. split; [exact Hsum|].
  exact (unseen_update_with_right_checksum emptyRegistry entryX Hc eq_refl Hsum).
Defined.

End Examples.

(** * Further properties of the checksum engine *)

Section ChecksumLocality.
Context `{Externals}.

(** The text of a level is that of its price and size. *)
Lemma pairText_key (d d' : level) :
  (e0 d, e1 d) = (e0 d', e1 d') -> pairText d = pairText d'.
Proof. intros [= H0 H1]. unfold pairText. now rewrite H0, H1. Qed.

Lemma map_pairText_key (l l' : list level) :
  map (fun d => (e0 d, e1 d)) l = map (fun d => (e0 d, e1 d)) l' ->
  map pairText l = map pairText l'.
Proof.
  revert l'. induction l as [|d l IH]; intros [|d' l'] Hmap; try discriminate.
  - reflexivity.
  - cbn in Hmap. injection Hmap as H0 H1 Hrest. cbn.
    rewrite (IH l' Hrest). f_equal. apply pairText_key. now rewrite H0, H1.
Qed.

Lemma map_combine_texts (bids asks : list level) :
  map (fun ba : level * level => pairText ba.1 +:+ ":" +:+ pairText ba.2)
      (combine bids asks)
  = map (fun t : string * string => t.1 +:+ ":" +:+ t.2)
        (combine (map pairText bids) (map pairText asks)).
Proof.
  revert asks. induction bids as [|b bids IH]; intros [|a asks]; try reflexivity.
  cbn. now rewrite IH.
Qed.

(** The pre-hash string written from the texts of the two cuts. *)
Lemma preHash_texts (askDepths bidDepths : list level) :
  preHash askDepths bidDepths
  = let asks := map pairText (take 25 askDepths) in
    let bids := map pairText (take 25 bidDepths) in
    if (length asks =? length bids)%nat
    then joinWith ":" (map (fun t : string * string => t.1 +:+ ":" +:+ t.2)
                           (combine bids asks))
    else joinWith ":" (bids ++ asks).
Proof.
  unfold preHash. cbn zeta. rewrite !length_map, map_combine_texts. reflexivity.
Qed.



(** X3. The checksum reads the first 25 levels of each side and, of a
    level, its price and its size: two pairs of sides that agree on these
    have the same pre-hash string and the same checksum, whatever stands
    in their further levels and in the two further slots of a level. *)
Theorem calCrc32_reads_top25_price_size (askDepths askDepths' bidDepths bidDepths' : list level) :
  map (fun d => (e0 d, e1 d)) (take 25 askDepths)
  = map (fun d => (e0 d, e1 d)) (take 25 askDepths') ->
  map (fun d => (e0 d, e1 d)) (take 25 bidDepths)
  = map (fun d => (e0 d, e1 d)) (take 25 bidDepths') ->
  calCrc32 askDepths bidDepths = calCrc32 askDepths' bidDepths'.
Proof.
  intros Hasks Hbids. rewrite !calCrc32_preHash, !preHash_texts.
  now rewrite (map_pairText_key _ _ Hasks), (map_pairText_key _ _ Hbids).
Qed.


End ChecksumLocality.

(** * Further properties of the book sides *)

(** X13. The comparator of the bids is the comparator of the asks with
    its arguments exchanged, and its opposite; both answer -1, 0 or 1,
    and 0 exactly when neither price is less than the other (equal
    prices, or a NaN). *)
Theorem bid_comparator_mirrors_ask (a b : float64) :
  bidPriceLevelComparator a b = askPriceLevelComparator b a
  /\ bidPriceLevelComparator a b = (- askPriceLevelComparator a b)%Z
  /\ (askPriceLevelComparator a b = 0%Z
      <-> f64_lt a b = false /\ f64_lt b a = false)
  /\ (askPriceLevelComparator a b = (-1)%Z \/ askPriceLevelComparator a b = 0%Z
      \/ askPriceLevelComparator a b = 1%Z).
Proof.
  unfold bidPriceLevelComparator, askPriceLevelComparator, f64_lt, f64_gt.
  destruct (SFltb a b) eqn:Hab.
  - rewrite (SFltb_asym a b Hab). intuition (try lia; try congruence).
  - destruct (SFltb b a); intuition (try lia; try congruence).
Qed.

Section Sides.
Variable cmp : float64 -> float64 -> Z.

Lemma remove_put_absent key value l :
  cmp key key = 0%Z -> rbt.get cmp key l = None ->
  rbt.remove cmp key (rbt.put cmp key value l) = l.
Proof.
  intros Hrefl. induction l as [|[k v] r IH]; cbn.
  - now answered.
  - walk cmp key k; cbn; answered; try discriminate; try reflexivity.
    intros Hget. now rewrite IH.
Qed.

Lemma put_put key value value' l :
  cmp key key = 0%Z ->
  rbt.put cmp key value' (rbt.put cmp key value l) = rbt.put cmp key value' l.
Proof.
  intros Hrefl. induction l as [|[k v] r IH]; cbn.
  - now answered.
  - walk cmp key k; cbn; answered; try reflexivity. now rewrite IH.
Qed.

(** In an ordered sequence the first key is before every later one. *)
Lemma sorted_first k v r :
  (forall a b c, cmp a b < 0 -> cmp b c < 0 -> cmp a c < 0)%Z ->
  rbt.sorted cmp ((k, v) :: r) = true ->
  forall k' v', In (k', v') r -> (cmp k k' < 0)%Z.
Proof.
  intros Htrans. revert k v. induction r as [|[k1 v1] r IH]; intros k v Hs k' v' Hin.
  - destruct Hin.
  - pose proof (sorted_head cmp _ _ _ _ _ Hs) as Hlt.
    destruct Hin as [[= <- <-] | Hin]; [exact Hlt|].
    apply (Htrans k k1 k' Hlt).
    exact (IH k1 v1 (sorted_tail cmp _ _ _ Hs) k' v' Hin).
Qed.

End Sides.

Section MergeProperties.
Context `{Externals}.

Lemma assertString_Ret (v : iface) (s : string) :
  assertString v = Ret s -> v = IString s.
Proof. destruct v; cbn; intros [= <-] || discriminate. reflexivity. Qed.

(** One step of [mergeDepths] on a level with string price and size whose
    price parses. *)
Lemma mergeDepths_step (side : rbt.Tree) (d : level) (rest : list level)
    (price size : string) (p : float64) :
  e0 d = IString price -> e1 d = IString size -> ParseFloat price = (p, None) ->
  mergeDepths side (d :: rest)
  = if (StringToInt64 size =? 0)%Z
    then mergeDepths (rbt.Remove side p) rest
    else mergeDepths (rbt.Put side p d) rest.
Proof.
  intros H0 H1 Hp. cbn [mergeDepths]. rewrite H0. cbn [assertString].
  rewrite bind_Ret, Hp, H1. cbn [assertString]. now rewrite bind_Ret.
Qed.

Lemma mergeDepths_comparator (deltas : list level) (side side' : rbt.Tree)
    (e : option error) :
  mergeDepths side deltas = Ret (side', e) ->
  rbt.Comparator side' = rbt.Comparator side.
Proof.
  revert side. induction deltas as [|a deltas IH]; intros side.
  - now intros [= <- _].
  - cbn [mergeDepths].
    destruct (assertString (e0 a)) as [price|why]; [|discriminate].
    rewrite bind_Ret.
    destruct (ParseFloat price) as [newPrice [err|]].
    + now intros [= <- _].
    + destruct (assertString (e1 a)) as [size|why]; [|discriminate].
      rewrite bind_Ret.
      destruct (StringToInt64 size =? 0)%Z; intros Hrun; now rewrite (IH _ Hrun).
Qed.

(** X7. Merging deltas into a side of a book whose entries are in order
    leaves them in order under the same comparator, provided no price of
    the deltas reads as a NaN. *)
Theorem mergeDepths_keeps_sides_ordered (deltas : list level) (side side' : rbt.Tree)
    (e : option error) :
  Forall (fun d => forall s p,
            e0 d = IString s -> ParseFloat s = (p, None) -> is_nan p = false) deltas ->
  bookSide side -> rbt.wf side ->
  mergeDepths side deltas = Ret (side', e) ->
  rbt.Comparator side' = rbt.Comparator side /\ rbt.wf side'.
Proof.
  intros Hnum Hside Hwf Hrun. split; [exact (mergeDepths_comparator _ _ _ _ Hrun)|].
  revert side Hside Hwf Hrun.
  induction deltas as [|a deltas IH]; intros side Hside Hwf.
  - now intros [= <- _].
  - inversion Hnum as [|? ? Ha Hrest]; subst. cbn [mergeDepths].
    destruct (assertString (e0 a)) as [price|why] eqn:Hprice; [|discriminate].
    apply assertString_Ret in Hprice. rewrite bind_Ret.
    destruct (ParseFloat price) as [newPrice [err|]] eqn:Hparse.
    + now intros [= <- _].
    + destruct (assertString (e1 a)) as [size|why]; [|discriminate].
      rewrite bind_Ret. pose proof (Ha _ _ Hprice Hparse) as Hnan.
      destruct (StringToInt64 size =? 0)%Z; apply (IH Hrest); try exact Hside.
      * apply remove_sorted; [exact Hwf|].
        intros x y z. now apply book_comparator_trans.
      * apply put_sorted; [| exact Hwf]. now apply bookSide_orders.
Qed.

(** X8. On a side of a book whose entries are in order, the entry that
    [Left] returns holds the best price: every other ask is above the
    leftmost ask, every other bid is below the leftmost bid. *)
Theorem left_is_the_best_price (side : rbt.Tree) (k : float64) (v : level) :
  bookSide side -> rbt.wf side ->
  rbt.Left side = Some (k, v) ->
  forall k' v', In (k', v') (rbt.entries side) ->
    (k', v') = (k, v)
    \/ ((rbt.Comparator side = askPriceLevelComparator -> f64_lt k k' = true)
        /\ (rbt.Comparator side = bidPriceLevelComparator -> f64_lt k' k = true)).
Proof.
  intros Hside Hwf Hleft k' v' Hin. unfold rbt.Left, rbt.wf in *.
  destruct (rbt.entries side) as [|[k0 v0] rest] eqn:Hentries; [discriminate|].
  injection Hleft as -> ->.
  destruct Hin as [Heq | Hin]; [left; now symmetry|]. right.
  assert (Hlt : (rbt.Comparator side k k' < 0)%Z).
  { apply (sorted_first _ k v rest) with (v' := v'); try assumption.
    intros a b c. now apply book_comparator_trans. }
  split; intros Hcmp; rewrite Hcmp in Hlt;
    unfold askPriceLevelComparator, bidPriceLevelComparator, f64_lt, f64_gt in *.
  - destruct (SFltb k k'); [reflexivity|]. destruct (SFltb k' k); lia.
  - destruct (SFltb k k'); [lia|]. destruct (SFltb k' k); [reflexivity | lia].
Qed.

(** X20. A level for a price that the side does not hold, followed in the
    same list by a level of size 0 for the same price string, leaves the
    side exactly as it was. *)
Theorem level_then_zero_size_cancels (side : rbt.Tree) (add cancel : level)
    (price size zero : string) (p : float64) :
  bookSide side ->
  e0 add = IString price -> e1 add = IString size ->
  e0 cancel = IString price -> e1 cancel = IString zero ->
  ParseFloat price = (p, None) ->
  StringToInt64 size <> 0%Z -> StringToInt64 zero = 0%Z ->
  rbt.Get side p = None ->
  mergeDepths side [add; cancel] = Ret (side, None).
Proof.
  intros Hside Ha0 Ha1 Hc0 Hc1 Hp Hsize Hzero Hget.
  rewrite (mergeDepths_step side add _ price size p Ha0 Ha1 Hp).
  apply Z.eqb_neq in Hsize. rewrite Hsize.
  rewrite (mergeDepths_step _ cancel _ price zero p Hc0 Hc1 Hp).
  rewrite Hzero. cbn [Z.eqb mergeDepths].
  pose proof (bookSide_refl side p Hside) as Hrefl.
  destruct side as [cmp l]. unfold rbt.Remove, rbt.Put, rbt.Get in *. cbn in *.
  now rewrite remove_put_absent.
Qed.

(** X21. Of two consecutive levels of non-zero size for the same price
    string, the later one wins: the side is as if the earlier one had not
    been sent. *)
Theorem later_level_overrides (side : rbt.Tree) (first second : level)
    (rest : list level) (price size size' : string) (p : float64) :
  bookSide side ->
  e0 first = IString price -> e1 first = IString size ->
  e0 second = IString price -> e1 second = IString size' ->
  ParseFloat price = (p, None) ->
  StringToInt64 size <> 0%Z -> StringToInt64 size' <> 0%Z ->
  mergeDepths side (first :: second :: rest) = mergeDepths side (second :: rest).
Proof.
  intros Hside Hf0 Hf1 Hs0 Hs1 Hp Hsize Hsize'.
  rewrite (mergeDepths_step side first _ price size p Hf0 Hf1 Hp).
  apply Z.eqb_neq in Hsize, Hsize'. rewrite Hsize.
  rewrite !(mergeDepths_step _ second _ price size' p Hs0 Hs1 Hp), Hsize'.
  pose proof (bookSide_refl side p Hside) as Hrefl.
  destruct side as [cmp l]. unfold rbt.Put. cbn in *.
  now rewrite put_put.
Qed.

End MergeProperties.


Section ItemProperties.
Context `{Externals}.

(** What a call of [update] that returns went through. *)
Lemma update_inv (di di' : WSDepthItem.t) (newDI : WsDepthUpdates.t) (e : option error) :
  WSDepthItem.update di newDI = Ret (di', e) ->
  exists asks e1,
    mergeDepths (WSDepthItem.Asks di) (WsDepthUpdates.Asks newDI) = Ret (asks, e1)
    /\ match e1 with
       | Some err => di' = WSDepthItem.setAsks di asks /\ e = Some (err)
       | None =>
           exists bids e2,
             mergeDepths (WSDepthItem.Bids di) (WsDepthUpdates.Bids newDI) = Ret (bids, e2)
             /\ let merged := WSDepthItem.setBids (WSDepthItem.setAsks di asks) bids in
                match e2 with
                | Some err => di' = merged /\ e = Some err
                | None =>
                    let text := preHash (first25Updates asks) (first25Updates bids) in
                    let crc := int32_of_uint32 (ChecksumIEEE text) in
                    if (crc =? WsDepthUpdates.Checksum newDI)%Z
                    then di' = WSDepthItem.commit merged (WsDepthUpdates.Checksum newDI)
                                 (WsDepthUpdates.Timestamp newDI)
                         /\ e = None
                    else di' = merged
                         /\ e = Some (ChecksumError text crc (WsDepthUpdates.Checksum newDI))
                end
       end.
Proof.
  unfold WSDepthItem.update.
  destruct (mergeDepths (WSDepthItem.Asks di) _) as [[asks [err1|]]|why];
    [| | discriminate]; rewrite bind_Ret.
  - intros [= <- <-]. exists asks, (Some err1). auto.
  - cbn [WSDepthItem.setAsks WSDepthItem.Bids].
    destruct (mergeDepths (WSDepthItem.Bids di) _) as [[bids [err2|]]|why] eqn:Hbids;
      [| | discriminate]; rewrite bind_Ret.
    + intros [= <- <-]. exists asks, None. split; [reflexivity|].
      exists bids, (Some err2). auto.
    + rewrite calCrc32_preHash, bind_Ret. cbn [WSDepthItem.setBids WSDepthItem.Asks WSDepthItem.Bids].
      intros Hrun. exists asks, None. split; [reflexivity|].
      exists bids, None. split; [reflexivity|]. cbn zeta.
      destruct (_ =? _)%Z; cbn [negb] in Hrun; injection Hrun as <- <-; auto.
Qed.

Lemma update_instrument (di di' : WSDepthItem.t) (newDI : WsDepthUpdates.t)
    (e : option error) :
  WSDepthItem.update di newDI = Ret (di', e) ->
  WSDepthItem.InstrumentId di' = WSDepthItem.InstrumentId di.
Proof.
  intros Hrun. destruct (update_inv _ _ _ _ Hrun) as (asks & [err1|] & _ & Hrest).
  - now destruct Hrest as [-> _].
  - destruct Hrest as (bids & [err2|] & _ & Hrest); cbn zeta in Hrest.
    + now destruct Hrest as [-> _].
    + destruct (_ =? _)%Z; now destruct Hrest as [-> _].
Qed.

Lemma update_comparators (di di' : WSDepthItem.t) (newDI : WsDepthUpdates.t)
    (e : option error) :
  WSDepthItem.update di newDI = Ret (di', e) ->
  rbt.Comparator (WSDepthItem.Asks di') = rbt.Comparator (WSDepthItem.Asks di)
  /\ rbt.Comparator (WSDepthItem.Bids di') = rbt.Comparator (WSDepthItem.Bids di).
Proof.
  intros Hrun. destruct (update_inv _ _ _ _ Hrun) as (asks & [err1|] & Hasks & Hrest);
    apply mergeDepths_comparator in Hasks.
  - now destruct Hrest as [-> _].
  - destruct Hrest as (bids & [err2|] & Hbids & Hrest); cbn zeta in Hrest;
      apply mergeDepths_comparator in Hbids.
    + now destruct Hrest as [-> _].
    + destruct (_ =? _)%Z; now destruct Hrest as [-> _].
Qed.

Lemma update_error_shape (di di' : WSDepthItem.t) (newDI : WsDepthUpdates.t) (err : error) :
  WSDepthItem.update di newDI = Ret (di', Some err) ->
  (exists cause, err = BadPrice cause)
  \/ (exists text crc, err = ChecksumError text crc (WsDepthUpdates.Checksum newDI)).
Proof.
  intros Hrun. destruct (update_inv _ _ _ _ Hrun) as (asks & [err1|] & Hasks & Hrest).
  - destruct Hrest as [_ [= <-]]. left. exact (mergeDepths_error _ _ _ _ Hasks).
  - destruct Hrest as (bids & [err2|] & Hbids & Hrest); cbn zeta in Hrest.
    + destruct Hrest as [_ [= <-]]. left. exact (mergeDepths_error _ _ _ _ Hbids).
    + destruct (_ =? _)%Z; destruct Hrest as [_ He]; [discriminate|].
      injection He as ->. right. eauto.
Qed.

(** X5. Whatever [update] returns, the item keeps its instrument and the
    comparators of its two sides; with an error it also keeps its checksum
    and timestamp, without one it carries those of the update. *)
Theorem update_frame (di di' : WSDepthItem.t) (newDI : WsDepthUpdates.t)
    (e : option error) :
  WSDepthItem.update di newDI = Ret (di', e) ->
  WSDepthItem.InstrumentId di' = WSDepthItem.InstrumentId di
  /\ rbt.Comparator (WSDepthItem.Asks di') = rbt.Comparator (WSDepthItem.Asks di)
  /\ rbt.Comparator (WSDepthItem.Bids di') = rbt.Comparator (WSDepthItem.Bids di)
  /\ match e with
     | Some _ => WSDepthItem.Checksum di' = WSDepthItem.Checksum di
                 /\ WSDepthItem.Timestamp di' = WSDepthItem.Timestamp di
     | None => WSDepthItem.Checksum di' = WsDepthUpdates.Checksum newDI
               /\ WSDepthItem.Timestamp di' = WsDepthUpdates.Timestamp newDI
     end.
Proof.
  intros Hrun. split; [exact (update_instrument _ _ _ _ Hrun)|].
  destruct (update_comparators _ _ _ _ Hrun) as [Ha Hb]. do 2 (split; [assumption|]).
  destruct (update_inv _ _ _ _ Hrun) as (asks & [err1|] & _ & Hrest).
  - now destruct Hrest as [-> ->].
  - destruct Hrest as (bids & [err2|] & _ & Hrest); cbn zeta in Hrest.
    + now destruct Hrest as [-> ->].
    + destruct (_ =? _)%Z; now destruct Hrest as [-> ->].
Qed.

Lemma setSides_same (di : WSDepthItem.t) :
  WSDepthItem.setBids (WSDepthItem.setAsks di (WSDepthItem.Asks di)) (WSDepthItem.Bids di) = di.
Proof. now destruct di. Qed.


(** X16. The item [newDepthItem] returns is filed under the instrument
    of the entry and carries the entry's checksum and timestamp, whether
    or not [update] accepted the entry; its sides are ordered by the bid
    and the ask comparator. *)
Theorem newDepthItem_carries_entry (updates : WsDepthUpdates.t) (item : WSDepthItem.t) :
  newDepthItem updates = Ret item ->
  WSDepthItem.InstrumentId item = WsDepthUpdates.InstrumentId updates
  /\ WSDepthItem.Checksum item = WsDepthUpdates.Checksum updates
  /\ WSDepthItem.Timestamp item = WsDepthUpdates.Timestamp updates
  /\ rbt.Comparator (WSDepthItem.Bids item) = bidPriceLevelComparator
  /\ rbt.Comparator (WSDepthItem.Asks item) = askPriceLevelComparator.
Proof.
  unfold newDepthItem.
  destruct (WSDepthItem.update _ updates) as [[di' e]|why] eqn:Hupd; [|discriminate].
  rewrite bind_Ret. intros [= <-].
  rewrite (update_instrument _ _ _ _ Hupd).
  destruct (update_comparators _ _ _ _ Hupd) as [-> ->].
  destruct (update_inv _ _ _ _ Hupd) as (asks & [err1|] & _ & Hrest).
  - destruct Hrest as [-> _]. now cbn.
  - destruct Hrest as (bids & [err2|] & _ & Hrest); cbn zeta in Hrest.
    + destruct Hrest as [-> _]. now cbn.
    + destruct (_ =? _)%Z; destruct Hrest as [-> _]; now cbn.
Qed.

Lemma newDepthItem_instrument (updates : WsDepthUpdates.t) (item : WSDepthItem.t) :
  newDepthItem updates = Ret item ->
  WSDepthItem.InstrumentId item = WsDepthUpdates.InstrumentId updates.
Proof.
  unfold newDepthItem.
  destruct (WSDepthItem.update _ updates) as [[di' e]|why] eqn:Hupd; [|discriminate].
  rewrite bind_Ret. intros [= <-]. now rewrite (update_instrument _ _ _ _ Hupd).
Qed.

End ItemProperties.

Section RegistryProperties.
Context `{Externals}.

(** What a call of [loadWSDepthTableResponse] that returns went through:
    one of the two guards, or the loop of the action followed by the
    closing loop. *)
Lemma load_inv (d d' : WSHotDepths.t) (r : WSDepthTableResponse.t) (e : option error) :
  WSHotDepths.loadWSDepthTableResponse d r = Ret (d', e) ->
  (WSHotDepths.Table d <> WSDepthTableResponse.Table r /\ d' = d
   /\ e = Some (TableMismatch (WSDepthTableResponse.Table r) (WSHotDepths.Table d)))
  \/ (WSHotDepths.Table d = WSDepthTableResponse.Table r
      /\ WSDepthTableResponse.Valid r = false /\ d' = d /\ e = Some FormatError)
  \/ (WSHotDepths.Table d = WSDepthTableResponse.Table r
      /\ WSDepthTableResponse.Valid r = true
      /\ WSHotDepths.Table d' = WSHotDepths.Table d
      /\ exists e0,
           ((WSDepthTableResponse.Action r = "partial"
             /\ WSHotDepths.loadPartial (WSHotDepths.DepthMap d) (WSDepthTableResponse.Data r)
                = Ret (WSHotDepths.DepthMap d', e0))
            \/ (WSDepthTableResponse.Action r = "update"
                /\ WSHotDepths.loadUpdate (WSHotDepths.DepthMap d) (WSDepthTableResponse.Data r)
                   = Ret (WSHotDepths.DepthMap d', e0))
            \/ (WSDepthTableResponse.Action r <> "partial"
                /\ WSDepthTableResponse.Action r <> "update"
                /\ WSHotDepths.DepthMap d' = WSHotDepths.DepthMap d /\ e0 = None))
           /\ match e0 with
              | Some err => e = Some err
              | None => WSHotDepths.checkBest (WSHotDepths.DepthMap d')
                          (WSDepthTableResponse.Data r) = Ret e
              end).
Proof.
  intros Hrun.
  destruct (String.eqb (WSHotDepths.Table d) (WSDepthTableResponse.Table r)) eqn:Htable.
  2:{ unfold WSHotDepths.loadWSDepthTableResponse in Hrun.
      rewrite Htable in Hrun. cbn [negb] in Hrun.
      apply String.eqb_neq in Htable. injection Hrun as <- <-. left. auto. }
  apply String.eqb_eq in Htable. right.
  destruct (WSDepthTableResponse.Valid r) eqn:Hvalid.
  2:{ unfold WSHotDepths.loadWSDepthTableResponse in Hrun.
      rewrite Htable, String.eqb_refl, Hvalid in Hrun. cbn [negb] in Hrun.
      injection Hrun as <- <-. left. auto. }
  right. split; [assumption|]. split; [reflexivity|].
  destruct (String.eqb (WSDepthTableResponse.Action r) "partial") eqn:Hp.
  { apply String.eqb_eq in Hp. rewrite (load_partial d r Htable Hvalid Hp) in Hrun.
    destruct (WSHotDepths.loadPartial _ _) as [[m [err|]]|why] eqn:Hloop;
      [| | discriminate]; rewrite bind_Ret in Hrun.
    - injection Hrun as <- <-. split; [now symmetry|]. exists (Some err).
      split; [|reflexivity]. left. auto.
    - destruct (WSHotDepths.checkBest m _) as [err|why] eqn:Hbest; [|discriminate].
      rewrite bind_Ret in Hrun. injection Hrun as <- <-. split; [now symmetry|].
      exists None. split; [left; auto | exact Hbest]. }
  apply String.eqb_neq in Hp.
  destruct (String.eqb (WSDepthTableResponse.Action r) "update") eqn:Hu.
  { apply String.eqb_eq in Hu. rewrite (load_update d r Htable Hvalid Hu) in Hrun.
    destruct (WSHotDepths.loadUpdate _ _) as [[m [err|]]|why] eqn:Hloop;
      [| | discriminate]; rewrite bind_Ret in Hrun.
    - injection Hrun as <- <-. split; [reflexivity|]. exists (Some err).
      split; [|reflexivity]. right. left. auto.
    - destruct (WSHotDepths.checkBest m _) as [err|why] eqn:Hbest; [|discriminate].
      rewrite bind_Ret in Hrun. injection Hrun as <- <-. split; [reflexivity|].
      exists None. split; [right; left; auto | exact Hbest]. }
  apply String.eqb_neq in Hu. rewrite (load_other d r Htable Hvalid Hp Hu) in Hrun.
  destruct (WSHotDepths.checkBest _ _) as [err|why] eqn:Hbest; [|discriminate].
  rewrite bind_Ret in Hrun. injection Hrun as <- <-. split; [reflexivity|]. exists None.
  split; [right; right; auto | exact Hbest].
Qed.

Lemma loadPartial_keyed (data : list WsDepthUpdates.t) (m m' : gmap string WSDepthItem.t)
    (e : option error) :
  booksKeyed m -> WSHotDepths.loadPartial m data = Ret (m', e) -> booksKeyed m'.
Proof.
  revert m. induction data as [|u data IH]; intros m Hm.
  - now intros [= <- _].
  - cbn [WSHotDepths.loadPartial]. rewrite calCrc32_preHash, bind_Ret.
    destruct (_ =? _)%Z; [| now intros [= <- _]].
    destruct (newDepthItem u) as [item|why] eqn:Hitem; [|discriminate].
    rewrite bind_Ret. apply IH.
    apply map_Forall_insert_2; [exact (newDepthItem_instrument _ _ Hitem) | exact Hm].
Qed.

Lemma loadUpdate_keyed (data : list WsDepthUpdates.t) (m m' : gmap string WSDepthItem.t)
    (e : option error) :
  booksKeyed m -> WSHotDepths.loadUpdate m data = Ret (m', e) -> booksKeyed m'.
Proof.
  revert m. induction data as [|u data IH]; intros m Hm.
  - now intros [= <- _].
  - cbn [WSHotDepths.loadUpdate].
    destruct (m !! WsDepthUpdates.InstrumentId u) as [oldDI|] eqn:Hold.
    + destruct (WSDepthItem.update oldDI u) as [[oldDI' err]|why] eqn:Hupd; [|discriminate].
      rewrite bind_Ret.
      assert (Hm' : booksKeyed (<[WsDepthUpdates.InstrumentId u := oldDI']> m)).
      { apply map_Forall_insert_2; [| exact Hm].
        rewrite (update_instrument _ _ _ _ Hupd). exact (Hm _ _ Hold). }
      destruct err as [err|]; [now intros [= <- _] | now apply IH].
    + destruct (newDepthItem u) as [item|why] eqn:Hitem; [|discriminate].
      rewrite bind_Ret. apply IH.
      apply map_Forall_insert_2; [exact (newDepthItem_instrument _ _ Hitem) | exact Hm].
Qed.

Lemma loadUpdate_other (data : list WsDepthUpdates.t) (m m' : gmap string WSDepthItem.t)
    (e : option error) (instrumentId : string) :
  WSHotDepths.loadUpdate m data = Ret (m', e) ->
  (forall v, In v data -> WsDepthUpdates.InstrumentId v <> instrumentId) ->
  m' !! instrumentId = m !! instrumentId.
Proof.
  revert m. induction data as [|u data IH]; intros m.
  - intros [= <- _] _. reflexivity.
  - cbn [WSHotDepths.loadUpdate]. intros Hrun Hother.
    assert (Hu : WsDepthUpdates.InstrumentId u <> instrumentId) by (apply Hother; now left).
    assert (Hrest : forall v, In v data -> WsDepthUpdates.InstrumentId v <> instrumentId)
      by (intros v Hv; apply Hother; now right).
    destruct (m !! WsDepthUpdates.InstrumentId u) as [oldDI|].
    + destruct (WSDepthItem.update oldDI u) as [[oldDI' err]|why]; [|discriminate].
      rewrite bind_Ret in Hrun. destruct err as [err|].
      * injection Hrun as <- _. now apply lookup_insert_ne.
      * rewrite (IH _ Hrun Hrest). now apply lookup_insert_ne.
    + destruct (newDepthItem u) as [item|why]; [|discriminate].
      rewrite bind_Ret in Hrun. rewrite (IH _ Hrun Hrest). now apply lookup_insert_ne.
Qed.

Lemma insert_keeps {A : Type} (m : gmap string A) (k instrumentId : string) (v : A) :
  is_Some (m !! instrumentId) -> is_Some (<[k := v]> m !! instrumentId).
Proof.
  intros Hm. destruct (decide (k = instrumentId)) as [-> | Hne].
  - rewrite lookup_insert_eq. eauto.
  - now rewrite lookup_insert_ne.
Qed.

Lemma loadPartial_keeps (data : list WsDepthUpdates.t) (m m' : gmap string WSDepthItem.t)
    (e : option error) (instrumentId : string) :
  WSHotDepths.loadPartial m data = Ret (m', e) ->
  is_Some (m !! instrumentId) -> is_Some (m' !! instrumentId).
Proof.
  revert m. induction data as [|u data IH]; intros m.
  - now intros [= <- _].
  - cbn [WSHotDepths.loadPartial]. rewrite calCrc32_preHash, bind_Ret.
    destruct (_ =? _)%Z; [| now intros [= <- _]].
    destruct (newDepthItem u) as [item|why]; [|discriminate].
    rewrite bind_Ret. intros Hrun Hm. apply (IH _ Hrun). now apply insert_keeps.
Qed.

Lemma loadUpdate_keeps (data : list WsDepthUpdates.t) (m m' : gmap string WSDepthItem.t)
    (e : option error) (instrumentId : string) :
  WSHotDepths.loadUpdate m data = Ret (m', e) ->
  is_Some (m !! instrumentId) -> is_Some (m' !! instrumentId).
Proof.
  revert m. induction data as [|u data IH]; intros m.
  - now intros [= <- _].
  - cbn [WSHotDepths.loadUpdate]. intros Hrun Hm.
    destruct (m !! WsDepthUpdates.InstrumentId u) as [oldDI|].
    + destruct (WSDepthItem.update oldDI u) as [[oldDI' err]|why]; [|discriminate].
      rewrite bind_Ret in Hrun. destruct err as [err|].
      * injection Hrun as <- _. now apply insert_keeps.
      * apply (IH _ Hrun). now apply insert_keeps.
    + destruct (newDepthItem u) as [item|why]; [|discriminate].
      rewrite bind_Ret in Hrun. apply (IH _ Hrun). now apply insert_keeps.
Qed.

Lemma loadPartial_error_shape (data : list WsDepthUpdates.t)
    (m m' : gmap string WSDepthItem.t) (err : error) :
  WSHotDepths.loadPartial m data = Ret (m', Some err) ->
  exists text crc remote, err = ChecksumError text crc remote.
Proof.
  revert m. induction data as [|u data IH]; intros m; [discriminate|].
  cbn [WSHotDepths.loadPartial]. rewrite calCrc32_preHash, bind_Ret.
  destruct (_ =? _)%Z.
  - destruct (newDepthItem u) as [item|why]; [|discriminate].
    rewrite bind_Ret. apply IH.
  - intros [= _ <-]. eauto.
Qed.

Lemma loadUpdate_error_shape (data : list WsDepthUpdates.t)
    (m m' : gmap string WSDepthItem.t) (err : error) :
  WSHotDepths.loadUpdate m data = Ret (m', Some err) ->
  (exists cause, err = BadPrice cause)
  \/ (exists text crc remote, err = ChecksumError text crc remote).
Proof.
  revert m. induction data as [|u data IH]; intros m; [discriminate|].
  cbn [WSHotDepths.loadUpdate].
  destruct (m !! WsDepthUpdates.InstrumentId u) as [oldDI|].
  - destruct (WSDepthItem.update oldDI u) as [[oldDI' e]|why] eqn:Hupd; [|discriminate].
    rewrite bind_Ret. destruct e as [e|]; [| apply IH].
    intros [= _ <-]. destruct (update_error_shape _ _ _ _ Hupd) as [?|(text & crc & ->)];
      [now left | right; eauto].
  - destruct (newDepthItem u) as [item|why]; [|discriminate].
    rewrite bind_Ret. apply IH.
Qed.

Lemma checkBest_error (data : list WsDepthUpdates.t) (m : gmap string WSDepthItem.t)
    (err : error) :
  WSHotDepths.checkBest m data = Ret (Some err) ->
  exists u depth ask1 askLevel bid1 bidLevel,
    In u data
    /\ m !! WsDepthUpdates.InstrumentId u = Some depth
    /\ rbt.Left (WSDepthItem.Asks depth) = Some (ask1, askLevel)
    /\ rbt.Left (WSDepthItem.Bids depth) = Some (bid1, bidLevel)
    /\ f64_ge bid1 ask1 = true
    /\ err = CrossedBook (rbt.Values (WSDepthItem.Bids depth))
                         (rbt.Values (WSDepthItem.Asks depth)).
Proof.
  induction data as [|u0 data IH]; [discriminate|].
  cbn [WSHotDepths.checkBest].
  destruct (m !! WsDepthUpdates.InstrumentId u0) as [depth|] eqn:Hm; [|discriminate].
  destruct (rbt.Left (WSDepthItem.Asks depth)) as [[ask1 la]|] eqn:Ha; [|discriminate].
  destruct (rbt.Left (WSDepthItem.Bids depth)) as [[bid1 lb]|] eqn:Hb; [|discriminate].
  destruct (f64_ge bid1 ask1) eqn:Hge.
  - intros [= <-]. exists u0, depth, ask1, la, bid1, lb.
    repeat split; try assumption. now left.
  - intros Hrun. destruct (IH Hrun) as (u & depth' & a1 & al & b1 & bl & Hin & Hrest).
    exists u, depth', a1, al, b1, bl. split; [now right | exact Hrest].
Qed.

(** X18. The registry of a table files every book under the instrument
    of the book, and [loadWSDepthTableResponse] keeps it so, whatever it
    returns; the table of the registry never changes. *)
Theorem load_keeps_books_keyed (d d' : WSHotDepths.t) (r : WSDepthTableResponse.t)
    (e : option error) :
  booksKeyed (WSHotDepths.DepthMap d) ->
  WSHotDepths.loadWSDepthTableResponse d r = Ret (d', e) ->
  booksKeyed (WSHotDepths.DepthMap d') /\ WSHotDepths.Table d' = WSHotDepths.Table d.
Proof.
  intros Hkeyed Hrun.
  destruct (load_inv _ _ _ _ Hrun)
    as [(_ & -> & _) | [(_ & _ & -> & _) | (_ & _ & Htable & e0 & Hloop & _)]]; auto.
  split; [|exact Htable].
  destruct Hloop as [[_ Hloop] | [[_ Hloop] | (_ & _ & -> & _)]].
  - exact (loadPartial_keyed _ _ _ _ Hkeyed Hloop).
  - exact (loadUpdate_keyed _ _ _ _ Hkeyed Hloop).
  - exact Hkeyed.
Qed.

(** X9. [loadWSDepthTableResponse] reads and writes the registry at the
    instruments of the message's entries only: the book of every other
    instrument, or its absence, is after the call what it was before. *)
Theorem load_leaves_other_instruments (d d' : WSHotDepths.t)
    (r : WSDepthTableResponse.t) (e : option error) (instrumentId : string) :
  WSHotDepths.loadWSDepthTableResponse d r = Ret (d', e) ->
  (forall u, In u (WSDepthTableResponse.Data r) ->
             WsDepthUpdates.InstrumentId u <> instrumentId) ->
  WSHotDepths.DepthMap d' !! instrumentId = WSHotDepths.DepthMap d !! instrumentId.
Proof.
  intros Hrun Hother.
  destruct (load_inv _ _ _ _ Hrun)
    as [(_ & -> & _) | [(_ & _ & -> & _) | (_ & _ & _ & e0 & Hloop & _)]]; auto.
  destruct Hloop as [[_ Hloop] | [[_ Hloop] | (_ & _ & -> & _)]].
  - exact (loadPartial_other _ _ _ _ _ Hloop Hother).
  - exact (loadUpdate_other _ _ _ _ _ Hloop Hother).
  - reflexivity.
Qed.

(** X10. [loadWSDepthTableResponse] never drops a book: an instrument
    that has one before the call has one after it, also when the call
    returns an error and also for a snapshot that does not list it. *)
Theorem load_never_drops_a_book (d d' : WSHotDepths.t)
    (r : WSDepthTableResponse.t) (e : option error) (instrumentId : string) :
  WSHotDepths.loadWSDepthTableResponse d r = Ret (d', e) ->
  is_Some (WSHotDepths.DepthMap d !! instrumentId) ->
  is_Some (WSHotDepths.DepthMap d' !! instrumentId).
Proof.
  intros Hrun Hin.
  destruct (load_inv _ _ _ _ Hrun)
    as [(_ & -> & _) | [(_ & _ & -> & _) | (_ & _ & _ & e0 & Hloop & _)]]; auto.
  destruct Hloop as [[_ Hloop] | [[_ Hloop] | (_ & _ & -> & _)]].
  - exact (loadPartial_keeps _ _ _ _ _ Hloop Hin).
  - exact (loadUpdate_keeps _ _ _ _ _ Hloop Hin).
  - exact Hin.
Qed.

(** X19. When [loadWSDepthTableResponse] returns the error of the closing
    loop, the book the error prints is the book of an entry of the
    message, it is in the registry the call leaves behind, both of its
    sides have a level, and the guard [bid1 >= ask1] holds on its best
    prices. *)
Theorem crossed_book_error_names_a_stored_book (d d' : WSHotDepths.t)
    (r : WSDepthTableResponse.t) (bids asks : list level) :
  WSHotDepths.loadWSDepthTableResponse d r = Ret (d', Some (CrossedBook bids asks)) ->
  exists u depth ask1 askLevel bid1 bidLevel,
    In u (WSDepthTableResponse.Data r)
    /\ WSHotDepths.DepthMap d' !! WsDepthUpdates.InstrumentId u = Some depth
    /\ rbt.Left (WSDepthItem.Asks depth) = Some (ask1, askLevel)
    /\ rbt.Left (WSDepthItem.Bids depth) = Some (bid1, bidLevel)
    /\ f64_ge bid1 ask1 = true
    /\ bids = rbt.Values (WSDepthItem.Bids depth)
    /\ asks = rbt.Values (WSDepthItem.Asks depth).
Proof.
  intros Hrun.
  destruct (load_inv _ _ _ _ Hrun)
    as [(_ & _ & He) | [(_ & _ & _ & He) | (_ & _ & _ & e0 & Hloop & He)]];
    try discriminate.
  destruct e0 as [err|].
  - injection He as <-.
    destruct Hloop as [[_ Hloop] | [[_ Hloop] | (_ & _ & _ & ?)]]; [| | discriminate].
    + destruct (loadPartial_error_shape _ _ _ _ Hloop) as (? & ? & ? & ?). discriminate.
    + destruct (loadUpdate_error_shape _ _ _ _ Hloop) as [[? ?] | (? & ? & ? & ?)];
        discriminate.
  - destruct (checkBest_error _ _ _ He)
      as (u & depth & a1 & al & b1 & bl & Hin & Hm & Ha & Hb & Hge & [= -> ->]).
    exists u, depth, a1, al, b1, bl. auto 10.
Qed.

(** X12. The two guards of [loadWSDepthTableResponse] and they alone
    produce the table error and the format error, each leaving the
    registry as it was: the table error is returned exactly when the
    table of the message is not that of the registry, the format error
    exactly when the tables agree and the message is not valid. *)
Theorem load_guard_errors (d d' : WSHotDepths.t) (r : WSDepthTableResponse.t)
    (e : option error) :
  WSHotDepths.loadWSDepthTableResponse d r = Ret (d', e) ->
  ((exists rTable dTable, e = Some (TableMismatch rTable dTable))
   <-> WSHotDepths.Table d <> WSDepthTableResponse.Table r)
  /\ (e = Some FormatError
      <-> WSHotDepths.Table d = WSDepthTableResponse.Table r
          /\ WSDepthTableResponse.Valid r = false)
  /\ (WSHotDepths.Table d <> WSDepthTableResponse.Table r
      \/ WSDepthTableResponse.Valid r = false -> d' = d).
Proof.
  intros Hrun.
  destruct (load_inv _ _ _ _ Hrun)
    as [(Hne & -> & ->) | [(Heq & Hinv & -> & ->) | (Heq & Hval & _ & e0 & Hloop & He)]].
  - split; [split; eauto|]. split; [|reflexivity].
    split; [discriminate | now intros [? _]].
  - split; [split; [now intros (? & ? & ?) | congruence]|].
    split; [|reflexivity]. split; auto.
  - assert (Hshape : forall err, e = Some err ->
              (exists c, err = BadPrice c) \/ (exists t c q, err = ChecksumError t c q)
              \/ (exists b a, err = CrossedBook b a)).
    { intros err ->. destruct e0 as [err0|].
      - injection He as <-.
        destruct Hloop as [[_ Hloop] | [[_ Hloop] | (_ & _ & _ & ?)]]; [| | discriminate].
        + right. left. exact (loadPartial_error_shape _ _ _ _ Hloop).
        + destruct (loadUpdate_error_shape _ _ _ _ Hloop) as [?|?]; auto.
      - destruct (checkBest_error _ _ _ He) as (? & depth & ? & ? & ? & ? & ? & ? & ? & ? & ? & ->).
        right. right. eauto. }
    split; [split; [|congruence]|].
    + intros (a & b & ->).
      destruct (Hshape _ eq_refl) as [[? ?] | [(? & ? & ? & ?) | (? & ? & ?)]]; discriminate.
    + split; [|intros [? | ?]; congruence].
      split; [| intros [_ ?]; congruence].
      intros ->.
      destruct (Hshape _ eq_refl) as [[? ?] | [(? & ? & ? & ?) | (? & ? & ?)]]; discriminate.
Qed.

Lemma load_no_mismatch (d d' : WSHotDepths.t) (r : WSDepthTableResponse.t)
    (rTable dTable : string) :
  WSHotDepths.Table d = WSDepthTableResponse.Table r ->
  WSHotDepths.loadWSDepthTableResponse d r <> Ret (d', Some (TableMismatch rTable dTable)).
Proof.
  intros Heq Hrun.
  destruct (load_inv _ _ _ _ Hrun)
    as [(Hne & _) | [(_ & _ & _ & ?) | (_ & _ & _ & e0 & Hloop & He)]];
    [contradiction | discriminate |].
  destruct e0 as [err0|].
  - injection He as <-.
    destruct Hloop as [[_ Hloop] | [[_ Hloop] | (_ & _ & _ & ?)]]; [| | discriminate].
    + destruct (loadPartial_error_shape _ _ _ _ Hloop) as (? & ? & ? & ?). discriminate.
    + destruct (loadUpdate_error_shape _ _ _ _ Hloop) as [[? ?] | (? & ? & ? & ?)];
        discriminate.
  - destruct (checkBest_error _ _ _ He) as (? & depth & ? & ? & ? & ? & ? & ? & ? & ? & ? & ?).
    discriminate.
Qed.

Lemma load_table (d d' : WSHotDepths.t) (r : WSDepthTableResponse.t) (e : option error) :
  WSHotDepths.loadWSDepthTableResponse d r = Ret (d', e) ->
  WSHotDepths.Table d' = WSHotDepths.Table d.
Proof.
  intros Hrun.
  destruct (load_inv _ _ _ _ Hrun)
    as [(_ & -> & _) | [(_ & _ & -> & _) | (_ & _ & Htable & _)]]; auto.
Qed.

(** X11. The agent keeps one registry per table, filed under the table.
    Routing a depth push through [receiveDepth] keeps it so, never runs
    into the table error of [loadWSDepthTableResponse], touches no other
    table, and leaves the map as it was when the first push of a table
    fails; after a push without error the table has a registry. *)
Theorem receiveDepth_routes_by_table (hotDepthsMap hotDepthsMap' : gmap string WSHotDepths.t)
    (dtr : WSDepthTableResponse.t) (e : option error) :
  tablesKeyed hotDepthsMap ->
  receiveDepth hotDepthsMap dtr = Ret (hotDepthsMap', e) ->
  tablesKeyed hotDepthsMap'
  /\ (forall rTable dTable, e <> Some (TableMismatch rTable dTable))
  /\ (forall table, table <> WSDepthTableResponse.Table dtr ->
        hotDepthsMap' !! table = hotDepthsMap !! table)
  /\ (hotDepthsMap !! WSDepthTableResponse.Table dtr = None -> e <> None ->
        hotDepthsMap' = hotDepthsMap)
  /\ (e = None -> is_Some (hotDepthsMap' !! WSDepthTableResponse.Table dtr)).
Proof.
  intros Hkeyed. unfold receiveDepth.
  destruct (hotDepthsMap !! WSDepthTableResponse.Table dtr) as [hotDepths|] eqn:Hlookup.
  - destruct (WSHotDepths.loadWSDepthTableResponse hotDepths dtr) as [[hd err]|why] eqn:Hload;
      [|discriminate].
    rewrite bind_Ret. intros [= <- <-].
    pose proof (Hkeyed _ _ Hlookup) as Htable.
    split; [apply map_Forall_insert_2; [| exact Hkeyed];
            now rewrite (load_table _ _ _ _ Hload)|].
    split; [intros a b ->; exact (load_no_mismatch _ _ _ _ _ Htable Hload)|].
    split; [intros table Hne; now apply lookup_insert_ne|].
    split; [discriminate|]. intros _. rewrite lookup_insert_eq. eauto.
  - destruct (WSHotDepths.loadWSDepthTableResponse _ dtr) as [[hd err]|why] eqn:Hload;
      [|discriminate].
    rewrite bind_Ret.
    assert (Htable : WSHotDepths.Table (WSHotDepths.NewWSHotDepths (WSDepthTableResponse.Table dtr))
                     = WSDepthTableResponse.Table dtr) by reflexivity.
    destruct err as [err|]; intros [= <- <-].
    + split; [exact Hkeyed|].
      split; [intros a b [= ->]; exact (load_no_mismatch _ _ _ _ _ Htable Hload)|].
      split; [reflexivity|]. split; [reflexivity | discriminate].
    + split; [apply map_Forall_insert_2; [| exact Hkeyed];
              now rewrite (load_table _ _ _ _ Hload)|].
      split; [discriminate|].
      split; [intros table Hne; now apply lookup_insert_ne|].
      split; [congruence|]. intros _. rewrite lookup_insert_eq. eauto.
Qed.

End RegistryProperties.

Section ControlMessages.
Context `{Consts}.

Lemma ToString_error (st : SubscriptionTopic.t) :
  SubscriptionTopic.channel st = "" ->
  SubscriptionTopic.ToString st = ("", Some ERR_WS_SUBSCRIOTION_PARAMS).
Proof. unfold SubscriptionTopic.ToString. now intros ->. Qed.

Lemma ToString_ok (st : SubscriptionTopic.t) :
  SubscriptionTopic.channel st <> "" ->
  (SubscriptionTopic.ToString st).2 = None.
Proof.
  unfold SubscriptionTopic.ToString. intros Hne.
  destruct (SubscriptionTopic.channel st) as [|a s]; [contradiction|].
  cbn [String.length Nat.eqb].
  now destruct (0 <? String.length (SubscriptionTopic.filter st))%nat.
Qed.

Lemma topicArgs_ok (sts : list SubscriptionTopic.t) (strArgs : list string) :
  Forall (fun st => SubscriptionTopic.channel st <> "") sts ->
  topicArgs sts strArgs
  = (strArgs ++ map (fun st => (SubscriptionTopic.ToString st).1) sts, None).
Proof.
  intros Hall. revert strArgs.
  induction Hall as [|st sts Hst _ IH]; intros strArgs; cbn [topicArgs map].
  - now rewrite app_nil_r.
  - pose proof (ToString_ok st Hst) as Hok.
    destruct (SubscriptionTopic.ToString st) as [channel err]. cbn in Hok. subst err.
    rewrite IH. cbn [fst]. now rewrite <- app_assoc.
Qed.

Lemma topicArgs_error (sts : list SubscriptionTopic.t) (strArgs : list string) :
  Exists (fun st => SubscriptionTopic.channel st = "") sts ->
  (topicArgs sts strArgs).2 = Some ERR_WS_SUBSCRIOTION_PARAMS.
Proof.
  revert strArgs. induction sts as [|st sts IH]; intros strArgs Hex.
  - inversion Hex.
  - cbn [topicArgs].
    destruct (String.eqb (SubscriptionTopic.channel st) "") eqn:Hst.
    + apply String.eqb_eq in Hst. now rewrite (ToString_error st Hst).
    + apply String.eqb_neq in Hst. pose proof (ToString_ok st Hst) as Hok.
      destruct (SubscriptionTopic.ToString st) as [channel err]. cbn in Hok. subst err.
      apply IH. inversion Hex; subst; [contradiction | assumption].
Qed.

(** X14. [subscribeOp] and [unsubscribeOp] are all or nothing. When no
    topic has an empty channel they return the operation whose arguments
    are the strings of the topics in the order given; as soon as one
    topic has an empty channel they return no operation and the error of
    [ToString], whatever the other topics are. *)
Theorem subscription_ops_all_or_nothing (sts : list SubscriptionTopic.t) :
  let texts := map (fun st => (SubscriptionTopic.ToString st).1) sts in
  (Forall (fun st => SubscriptionTopic.channel st <> "") sts ->
     subscribeOp sts = (Some (BaseOp.mk "subscribe" texts), None)
     /\ unsubscribeOp sts = (Some (BaseOp.mk CHNL_EVENT_UNSUBSCRIBE texts), None))
  /\ (Exists (fun st => SubscriptionTopic.channel st = "") sts ->
        subscribeOp sts = (None, Some ERR_WS_SUBSCRIOTION_PARAMS)
        /\ unsubscribeOp sts = (None, Some ERR_WS_SUBSCRIOTION_PARAMS)).
Proof.
  cbn zeta. unfold subscribeOp, unsubscribeOp. split.
  - intros Hall. now rewrite (topicArgs_ok sts [] Hall).
  - intros Hex. pose proof (topicArgs_error sts [] Hex) as Herr.
    destruct (topicArgs sts []) as [strArgs err]. cbn in Herr. now subst err.
Qed.

(** X15. The string of a topic does not tell the filter from the channel:
    a topic with a filter and the topic whose channel is that string and
    whose filter is empty are sent as the same argument. *)
Theorem topic_string_is_ambiguous (channel filter : string) :
  channel <> "" ->
  SubscriptionTopic.ToString
    (SubscriptionTopic.mk ((channel +:+ ":") +:+ filter) "")
  = (((channel +:+ ":") +:+ filter), None)
  /\ (filter <> "" ->
      SubscriptionTopic.ToString (SubscriptionTopic.mk channel filter)
      = (((channel +:+ ":") +:+ filter), None)).
Proof.
  intros Hne. unfold SubscriptionTopic.ToString. cbn [SubscriptionTopic.channel SubscriptionTopic.filter].
  destruct channel as [|a s]; [contradiction|]. split; [reflexivity|].
  intros Hf. destruct filter; [contradiction | reflexivity].
Qed.

End ControlMessages.

Section Panics.
Context `{Externals}.

(** X17. [calCrc32] indexes both sides with its loop counters and never
    leaves their range: it returns for every pair of sides, and the
    checksum it returns is an [int32] that agrees with the [uint32] of
    [ChecksumIEEE] modulo 2^32. *)
Theorem calCrc32_never_panics (askDepths bidDepths : list level) :
  exists text crc,
    calCrc32 askDepths bidDepths = Ret (text, crc)
    /\ (-2147483648 <= crc < 2147483648)%Z
    /\ (crc mod 4294967296 = ChecksumIEEE text mod 4294967296)%Z.
Proof.
  rewrite calCrc32_preHash. eexists. eexists. split; [reflexivity|].
  apply int32_of_uint32_range.
Qed.

Lemma mergeDepths_price_panics (side : rbt.Tree) (d : level) (rest : list level) :
  (forall s, e0 d <> IString s) ->
  mergeDepths side (d :: rest) = Panic "interface conversion: interface {} is not string".
Proof.
  intros Hprice. cbn [mergeDepths].
  destruct (e0 d) as [| | |s| |] eqn:He; try reflexivity. now destruct (Hprice s).
Qed.

(** X22. [mergeDepths] asserts that the price and the size of a level are
    strings. It returns, with or without an error, when every level has
    a string in both slots; a level whose price is anything else (a JSON
    number, say) panics when the loop reaches it first. *)
Theorem mergeDepths_needs_string_levels (side : rbt.Tree) :
  (forall deltas,
     Forall (fun d => exists price size, e0 d = IString price /\ e1 d = IString size)
            deltas ->
     exists side' e, mergeDepths side deltas = Ret (side', e))
  /\ (forall d rest,
        (forall s, e0 d <> IString s) ->
        exists why, mergeDepths side (d :: rest) = Panic why).
Proof.
  split.
  - intros deltas Hall. revert side.
    induction Hall as [|d deltas (price & size & H0 & H1) _ IH]; intros side.
    + cbn. eauto.
    + cbn [mergeDepths]. rewrite H0. cbn [assertString]. rewrite bind_Ret.
      destruct (ParseFloat price) as [p [err|]]; [eauto|].
      rewrite H1. cbn [assertString]. rewrite bind_Ret.
      destruct (StringToInt64 size =? 0)%Z; apply IH.
  - intros d rest Hprice. rewrite (mergeDepths_price_panics side d rest Hprice). eauto.
Qed.

(** X23. A snapshot whose first entry carries the right checksum and
    whose first ask has a price that is not a string makes
    [loadWSDepthTableResponse] panic: the checksum is computed on the
    printed levels and passes, the merge then asserts a string. *)
Theorem snapshot_with_numeric_price_panics (d : WSHotDepths.t)
    (r : WSDepthTableResponse.t) (u : WsDepthUpdates.t) (rest : list WsDepthUpdates.t)
    (ask : level) (asks : list level) :
  WSHotDepths.Table d = WSDepthTableResponse.Table r ->
  WSDepthTableResponse.Valid r = true ->
  WSDepthTableResponse.Action r = "partial" ->
  WSDepthTableResponse.Data r = u :: rest ->
  checksumOf (WsDepthUpdates.Asks u) (WsDepthUpdates.Bids u) = WsDepthUpdates.Checksum u ->
  WsDepthUpdates.Asks u = ask :: asks ->
  (forall s, e0 ask <> IString s) ->
  WSHotDepths.loadWSDepthTableResponse d r
  = Panic "interface conversion: interface {} is not string".
Proof.
  intros Htable Hvalid Haction Hdata Hsum Hasks Hprice.
  rewrite (load_partial d r Htable Hvalid Haction), Hdata.
  cbn [WSHotDepths.loadPartial]. rewrite calCrc32_preHash, bind_Ret.
  unfold checksumOf in Hsum. apply Z.eqb_eq in Hsum. rewrite Hsum.
  unfold newDepthItem, WSDepthItem.update. cbn [WSDepthItem.Asks].
  rewrite Hasks, (mergeDepths_price_panics _ ask asks Hprice). reflexivity.
Qed.

End Panics.

(** * Worked examples of the further properties *)

Section FurtherExamples.
#[local] Existing Instance demoExternals.
#[local] Existing Instance demoConsts.

Lemma calCrc32_reads_top25_price_size_witness :
  let asks' := [Level (IString "101") (IString "1") (IString "0") (IString "4")] in
  map (fun d => (e0 d, e1 d)) (take 25 [lvl "101" "1"])
  = map (fun d => (e0 d, e1 d)) (take 25 asks')
  /\ calCrc32 [lvl "101" "1"] [lvl "100" "1"] = calCrc32 asks' [lvl "100" "1"].
Proof.
  intros asks'. split; [reflexivity|].
  apply calCrc32_reads_top25_price_size; reflexivity.
Defined.

Lemma mergeDepths_keeps_sides_ordered_witness :
  let deltas := [lvl "102" "3"; lvl "100" "2"; lvl "101" "0"] in
  let side' := rbt.Remove (rbt.Put (rbt.Put askSide101 (float64_of_Z 102) (lvl "102" "3"))
                             (float64_of_Z 100) (lvl "100" "2")) (float64_of_Z 101) in
  bookSide askSide101 /\ rbt.wf askSide101
  /\ mergeDepths askSide101 deltas = Ret (side', None)
  /\ rbt.Comparator side' = rbt.Comparator askSide101 /\ rbt.wf side'.
Proof.
  intros deltas side'.
  assert (Hside : bookSide askSide101) by (left; reflexivity).
  assert (Hwf : rbt.wf askSide101) by reflexivity.
  assert (Hrun : mergeDepths askSide101 deltas = Ret (side', None)) by reflexivity.
  assert (Hnum : Forall (fun d => forall s p,
                   e0 d = IString s -> ParseFloat s = (p, None) -> is_nan p = false) deltas).
  { repeat constructor; intros s p [= <-] [= <-]; reflexivity. }
  split; [exact Hside|]. split; [exact Hwf|]. split; [exact Hrun|].
  exact (mergeDepths_keeps_sides_ordered deltas askSide101 side' None Hnum Hside Hwf Hrun).
Defined.

Lemma left_is_the_best_price_witness :
  let side := rbt.Put askSide101 (float64_of_Z 102) (lvl "102" "3") in
  bookSide side /\ rbt.wf side
  /\ rbt.Left side = Some (float64_of_Z 101, lvl "101" "1")
  /\ In (float64_of_Z 102, lvl "102" "3") (rbt.entries side)
  /\ ((float64_of_Z 102, lvl "102" "3") = (float64_of_Z 101, lvl "101" "1")
      \/ ((rbt.Comparator side = askPriceLevelComparator ->
           f64_lt (float64_of_Z 101) (float64_of_Z 102) = true)
          /\ (rbt.Comparator side = bidPriceLevelComparator ->
              f64_lt (float64_of_Z 102) (float64_of_Z 101) = true))).
Proof.
  intros side.
  assert (Hside : bookSide side) by (left; reflexivity).
  assert (Hwf : rbt.wf side) by reflexivity.
  assert (Hleft : rbt.Left side = Some (float64_of_Z 101, lvl "101" "1")) by reflexivity.
  assert (Hin : In (float64_of_Z 102, lvl "102" "3") (rbt.entries side))
    by (right; left; reflexivity).
  split; [exact Hside|]. split; [exact Hwf|]. split; [exact Hleft|]. split; [exact Hin|].
  exact (left_is_the_best_price side _ _ Hside Hwf Hleft _ _ Hin).
Defined.

Lemma level_then_zero_size_cancels_witness :
  bookSide askSide101
  /\ ParseFloat "102" = (float64_of_Z 102, None)
  /\ StringToInt64 "3" <> 0%Z /\ StringToInt64 "0" = 0%Z
  /\ rbt.Get askSide101 (float64_of_Z 102) = None
  /\ mergeDepths askSide101 [lvl "102" "3"; lvl "102" "0"] = Ret (askSide101, None).
Proof.
  assert (Hside : bookSide askSide101) by (left; reflexivity).
  assert (Hparse : ParseFloat "102" = (float64_of_Z 102, None)) by reflexivity.
  assert (Hsize : StringToInt64 "3" <> 0%Z) by (vm_compute; discriminate).
  assert (Hzero : StringToInt64 "0" = 0%Z) by reflexivity.
  assert (Hget : rbt.Get askSide101 (float64_of_Z 102) = None) by reflexivity.
  repeat (split; [first [exact Hside | exact Hparse | exact Hsize | exact Hzero | exact Hget]|]).
  exact (level_then_zero_size_cancels askSide101 (lvl "102" "3") (lvl "102" "0")
           "102" "3" "0" (float64_of_Z 102) Hside eq_refl eq_refl eq_refl eq_refl
           Hparse Hsize Hzero Hget).
Defined.

Lemma later_level_overrides_witness :
  bookSide askSide101
  /\ ParseFloat "102" = (float64_of_Z 102, None)
  /\ StringToInt64 "3" <> 0%Z /\ StringToInt64 "5" <> 0%Z
  /\ mergeDepths askSide101 [lvl "102" "3"; lvl "102" "5"]
     = mergeDepths askSide101 [lvl "102" "5"].
Proof.
  assert (Hside : bookSide askSide101) by (left; reflexivity).
  assert (Hparse : ParseFloat "102" = (float64_of_Z 102, None)) by reflexivity.
  assert (Hsize : StringToInt64 "3" <> 0%Z) by (vm_compute; discriminate).
  assert (Hsize' : StringToInt64 "5" <> 0%Z) by (vm_compute; discriminate).
  repeat (split; [first [exact Hside | exact Hparse | exact Hsize | exact Hsize']|]).
  exact (later_level_overrides askSide101 (lvl "102" "3") (lvl "102" "5") []
           "102" "3" "5" (float64_of_Z 102) Hside eq_refl eq_refl eq_refl eq_refl
           Hparse Hsize Hsize').
Defined.

Lemma update_frame_witness :
  let newDI := badEntry "X" [lvl "102" "3"] [] in
  let di' := WSDepthItem.setAsks book101
               (rbt.Put askSide101 (float64_of_Z 102) (lvl "102" "3")) in
  let e := Some (ChecksumError "100:1:101:1:102:3"
                   (checksumOf [lvl "101" "1"; lvl "102" "3"] [lvl "100" "1"])
                   (WsDepthUpdates.Checksum newDI)) in
  WSDepthItem.update book101 newDI = Ret (di', e)
  /\ WSDepthItem.InstrumentId di' = WSDepthItem.InstrumentId book101
  /\ rbt.Comparator (WSDepthItem.Asks di') = rbt.Comparator (WSDepthItem.Asks book101)
  /\ rbt.Comparator (WSDepthItem.Bids di') = rbt.Comparator (WSDepthItem.Bids book101)
  /\ WSDepthItem.Checksum di' = WSDepthItem.Checksum book101
  /\ WSDepthItem.Timestamp di' = WSDepthItem.Timestamp book101.
Proof.
  intros newDI di' e.
  assert (Hrun : WSDepthItem.update book101 newDI = Ret (di', e)) by (vm_compute; reflexivity).
  split; [exact Hrun|].
  exact (update_frame book101 di' newDI e Hrun).
Defined.


Lemma newDepthItem_carries_entry_witness :
  let item := WSDepthItem.mk "X" bidSide100 askSide101 (WsDepthUpdates.Timestamp entryXwrong)
                (WsDepthUpdates.Checksum entryXwrong) in
  newDepthItem entryXwrong = Ret item
  /\ WSDepthItem.InstrumentId item = WsDepthUpdates.InstrumentId entryXwrong
  /\ WSDepthItem.Checksum item = WsDepthUpdates.Checksum entryXwrong
  /\ WSDepthItem.Timestamp item = WsDepthUpdates.Timestamp entryXwrong
  /\ rbt.Comparator (WSDepthItem.Bids item) = bidPriceLevelComparator
  /\ rbt.Comparator (WSDepthItem.Asks item) = askPriceLevelComparator.
Proof.
  intros item.
  assert (Hrun : newDepthItem entryXwrong = Ret item) by (vm_compute; reflexivity).
  split; [exact Hrun|].
  exact (newDepthItem_carries_entry entryXwrong item Hrun).
Defined.

Lemma load_keeps_books_keyed_witness :
  let r := message "partial" [entryX; entryY] in
  let d' := WSHotDepths.mk depthTable (registryAfter [entryX; entryY]) in
  booksKeyed (WSHotDepths.DepthMap emptyRegistry)
  /\ WSHotDepths.loadWSDepthTableResponse emptyRegistry r = Ret (d', None)
  /\ booksKeyed (WSHotDepths.DepthMap d')
  /\ WSHotDepths.Table d' = WSHotDepths.Table emptyRegistry.
Proof.
  intros r d'.
  assert (Hkeyed : booksKeyed (WSHotDepths.DepthMap emptyRegistry))
    by apply map_Forall_empty.
  assert (Hrun : WSHotDepths.loadWSDepthTableResponse emptyRegistry r = Ret (d', None))
    by (vm_compute; reflexivity).
  split; [exact Hkeyed|]. split; [exact Hrun|].
  exact (load_keeps_books_keyed emptyRegistry d' r None Hkeyed Hrun).
Defined.

Lemma load_leaves_other_instruments_witness :
  let d := WSHotDepths.mk depthTable (registryAfter [entryY]) in
  let r := message "update" [entryX] in
  let d' := WSHotDepths.mk depthTable (registryAfter [entryY; entryX]) in
  WSHotDepths.loadWSDepthTableResponse d r = Ret (d', None)
  /\ WSHotDepths.DepthMap d' !! "Y" = WSHotDepths.DepthMap d !! "Y".
Proof.
  intros d r d'.
  assert (Hrun : WSHotDepths.loadWSDepthTableResponse d r = Ret (d', None))
    by (vm_compute; reflexivity).
  split; [exact Hrun|].
  apply (load_leaves_other_instruments d d' r None "Y" Hrun).
  intros u [<- | []]. discriminate.
Defined.

Lemma load_never_drops_a_book_witness :
  let d := WSHotDepths.mk depthTable (registryAfter [entryY]) in
  let r := message "partial" [entryX] in
  let d' := WSHotDepths.mk depthTable (registryAfter [entryY; entryX]) in
  WSHotDepths.loadWSDepthTableResponse d r = Ret (d', None)
  /\ is_Some (WSHotDepths.DepthMap d !! "Y")
  /\ is_Some (WSHotDepths.DepthMap d' !! "Y").
Proof.
  intros d r d'.
  assert (Hrun : WSHotDepths.loadWSDepthTableResponse d r = Ret (d', None))
    by (vm_compute; reflexivity).
  assert (Hin : is_Some (WSHotDepths.DepthMap d !! "Y")) by (vm_compute; eauto).
  split; [exact Hrun|]. split; [exact Hin|].
  exact (load_never_drops_a_book d d' r None "Y" Hrun Hin).
Defined.

Lemma crossed_book_error_names_a_stored_book_witness :
  let entry := goodEntry "X" [lvl "100" "1"] [lvl "101" "1"] in
  let r := message "partial" [entry] in
  let d' := WSHotDepths.mk depthTable (registryAfter [entry]) in
  WSHotDepths.loadWSDepthTableResponse emptyRegistry r
  = Ret (d', Some (CrossedBook [lvl "101" "1"] [lvl "100" "1"]))
  /\ exists u depth ask1 askLevel bid1 bidLevel,
       In u (WSDepthTableResponse.Data r)
       /\ WSHotDepths.DepthMap d' !! WsDepthUpdates.InstrumentId u = Some depth
       /\ rbt.Left (WSDepthItem.Asks depth) = Some (ask1, askLevel)
       /\ rbt.Left (WSDepthItem.Bids depth) = Some (bid1, bidLevel)
       /\ f64_ge bid1 ask1 = true
       /\ [lvl "101" "1"] = rbt.Values (WSDepthItem.Bids depth)
       /\ [lvl "100" "1"] = rbt.Values (WSDepthItem.Asks depth).
Proof.
  intros entry r d'.
  assert (Hrun : WSHotDepths.loadWSDepthTableResponse emptyRegistry r
                 = Ret (d', Some (CrossedBook [lvl "101" "1"] [lvl "100" "1"])))
    by (vm_compute; reflexivity).
  split; [exact Hrun|].
  exact (crossed_book_error_names_a_stored_book emptyRegistry d' r _ _ Hrun).
Defined.

Lemma load_guard_errors_witness :
  let r := WSDepthTableResponse.mk "spot/depth" "partial" [entryX] in
  let e := Some (TableMismatch "spot/depth" depthTable) in
  WSHotDepths.loadWSDepthTableResponse emptyRegistry r = Ret (emptyRegistry, e)
  /\ ((exists rTable dTable, e = Some (TableMismatch rTable dTable))
      <-> WSHotDepths.Table emptyRegistry <> WSDepthTableResponse.Table r)
  /\ (e = Some FormatError
      <-> WSHotDepths.Table emptyRegistry = WSDepthTableResponse.Table r
          /\ WSDepthTableResponse.Valid r = false)
  /\ (WSHotDepths.Table emptyRegistry <> WSDepthTableResponse.Table r
      \/ WSDepthTableResponse.Valid r = false -> emptyRegistry = emptyRegistry).
Proof.
  intros r e.
  assert (Hrun : WSHotDepths.loadWSDepthTableResponse emptyRegistry r
                 = Ret (emptyRegistry, e)) by reflexivity.
  split; [exact Hrun|].
  exact (load_guard_errors emptyRegistry emptyRegistry r e Hrun).
Defined.

Lemma receiveDepth_routes_by_table_witness :
  let dtr := message "partial" [entryY] in
  let hotDepthsMap' : gmap string WSHotDepths.t :=
    {[ depthTable := WSHotDepths.mk depthTable (registryAfter [entryY]) ]} in
  tablesKeyed ∅
  /\ receiveDepth ∅ dtr = Ret (hotDepthsMap', None)
  /\ tablesKeyed hotDepthsMap'
  /\ (forall rTable dTable, None <> Some (TableMismatch rTable dTable))
  /\ (forall table, table <> WSDepthTableResponse.Table dtr ->
        hotDepthsMap' !! table = (∅ : gmap string WSHotDepths.t) !! table)
  /\ ((∅ : gmap string WSHotDepths.t) !! WSDepthTableResponse.Table dtr = None ->
        @None error <> None -> hotDepthsMap' = ∅)
  /\ (@None error = None -> is_Some (hotDepthsMap' !! WSDepthTableResponse.Table dtr)).
Proof.
  intros dtr hotDepthsMap'.
  assert (Hkeyed : tablesKeyed ∅) by apply map_Forall_empty.
  assert (Hrun : receiveDepth ∅ dtr = Ret (hotDepthsMap', None))
    by (vm_compute; reflexivity).
  split; [exact Hkeyed|]. split; [exact Hrun|].
  exact (receiveDepth_routes_by_table ∅ hotDepthsMap' dtr None Hkeyed Hrun).
Defined.

Lemma topic_string_is_ambiguous_witness :
  "futures/depth" <> ""
  /\ SubscriptionTopic.ToString (SubscriptionTopic.mk "futures/depth:BTC-USD" "")
     = ("futures/depth:BTC-USD", None)
  /\ ("BTC-USD" <> "" ->
      SubscriptionTopic.ToString (SubscriptionTopic.mk "futures/depth" "BTC-USD")
      = ("futures/depth:BTC-USD", None)).
Proof.
  assert (Hne : "futures/depth" <> "") by discriminate.
  split; [exact Hne|].
  exact (topic_string_is_ambiguous "futures/depth" "BTC-USD" Hne).
Defined.

Lemma snapshot_with_numeric_price_panics_witness :
  let u := goodEntry "X" scenarioAsks scenarioBids in
  let r := message "partial" [u] in
  WSDepthTableResponse.Valid r = true
  /\ checksumOf (WsDepthUpdates.Asks u) (WsDepthUpdates.Bids u) = WsDepthUpdates.Checksum u
  /\ (forall s, e0 (lvlNum 101 "1") <> IString s)
  /\ WSHotDepths.loadWSDepthTableResponse emptyRegistry r
     = Panic "interface conversion: interface {} is not string".
Proof.
  intros u r.
  assert (Hvalid : WSDepthTableResponse.Valid r = true) by reflexivity.
  assert (Hsum : checksumOf (WsDepthUpdates.Asks u) (WsDepthUpdates.Bids u)
                 = WsDepthUpdates.Checksum u) by reflexivity.
  assert (Hprice : forall s, e0 (lvlNum 101 "1") <> IString s) by (intros s; discriminate).
  split; [exact Hvalid|]. split; [exact Hsum|]. split; [exact Hprice|].
  exact (snapshot_with_numeric_price_panics emptyRegistry r u [] (lvlNum 101 "1")
           [lvlNum 102 "2"] eq_refl Hvalid eq_refl eq_refl Hsum eq_refl Hprice).
Defined.

End FurtherExamples.
